(** * Cioban: a shallow embedding of the reconciliation controller

    The development follows [cioban/cioban.py]: the image-reference parser
    ([__get_image_parts]), the digest resolver ([__get_updated_image]), the
    blacklist filter ([get_services]), the update executor
    ([__update_image] and the convergence wait inside [_run]), one cycle
    ([_run]) and the scheduler loop ([run]), together with the sleep-interval
    parsing done by [__init__].

    Strings are Python [str] values restricted to ASCII (one [ascii] per
    character).  The Docker client, the registry, the metrics registry and
    the notifiers are collaborators: the Docker calls go through the
    [Platform] interface, and every call to a collaborator is recorded as
    an event.  Logging, the timing summary around [_run], the version
    metric and the registration of the notifiers are left out. *)

From stdpp Require Import gmap strings list.
From Stdlib Require Import ZArith Ascii String.

Local Open Scope string_scope.

(** ** Python strings *)

Module PyStr.
Local Open Scope Z_scope.

(** [s[:-1]]: every character but the last one ([""] stays [""]). *)
Fixpoint but_last (s : string) : string :=
  match s with
  | EmptyString => EmptyString
  | String c EmptyString => EmptyString
  | String c s' => String c (but_last s')
  end.

(** [s[-1]]: the last character; [None] stands for the [IndexError] of
    an empty string. *)
Fixpoint last_char (s : string) : option ascii :=
  match s with
  | EmptyString => None
  | String c EmptyString => Some c
  | String c s' => last_char s'
  end.

(** [any(p(c) for c in s)] *)
Fixpoint any (p : ascii -> bool) (s : string) : bool :=
  match s with
  | EmptyString => false
  | String c s' => p c || any p s'
  end.

(** [all(p(c) for c in s)] *)
Fixpoint all (p : ascii -> bool) (s : string) : bool :=
  match s with
  | EmptyString => true
  | String c s' => p c && all p s'
  end.

Definition between (lo hi : nat) (c : ascii) : bool :=
  let n := nat_of_ascii c in ((lo <=? n) && (n <=? hi))%nat.

(** [c.isalpha()] on ASCII. *)
Definition isalpha (c : ascii) : bool := between 65 90 c || between 97 122 c.

(** [c.isdigit()] on ASCII. *)
Definition isdigit (c : ascii) : bool := between 48 57 c.

(** The white space [int()] strips: space, \t, \n, \v, \f, \r. *)
Definition isspace (c : ascii) : bool := between 9 13 c || between 32 32 c.

Definition digit_val (c : ascii) : option Z :=
  if isdigit c then Some (Z.of_nat (nat_of_ascii c) - 48) else None.

Fixpoint lstrip (s : string) : string :=
  match s with
  | String c s' => if isspace c then lstrip s' else s
  | EmptyString => EmptyString
  end.

(** The digits of [int(s)] after the first one: digits, single
    underscores between digits, then white space up to the end. *)
Fixpoint int_digits (acc : Z) (after_underscore : bool) (s : string)
  : option Z :=
  match s with
  | EmptyString => if after_underscore then None else Some acc
  | String c s' =>
      match digit_val c with
      | Some d => int_digits (10 * acc + d) false s'
      | None =>
          if after_underscore then None
          else if Ascii.eqb c "_" then int_digits acc true s'
          else if isspace c && all isspace s' then Some acc
          else None
      end
  end.

(** [int(s)] in base 10; [None] stands for [ValueError]. *)
Definition int (s : string) : option Z :=
  let s1 := lstrip s in
  let '(sign, s2) :=
    match s1 with
    | String c r =>
        if Ascii.eqb c "-" then (-1, r)
        else if Ascii.eqb c "+" then (1, r)
        else (1, s1)
    | EmptyString => (1, s1)
    end in
  match s2 with
  | String c r =>
      match digit_val c with
      | Some d => Z.mul sign <$> int_digits d false r
      | None => None
      end
  | EmptyString => None
  end.

(** The characters that occur in the strings [int] accepts. *)
Definition int_char (c : ascii) : bool :=
  isdigit c || isspace c || Ascii.eqb c "-" || Ascii.eqb c "+" || Ascii.eqb c "_".

(** The value of a string of decimal digits read from the left. *)
Fixpoint decimal (acc : Z) (s : string) : Z :=
  match s with
  | EmptyString => acc
  | String c s' => decimal (10 * acc + (Z.of_nat (nat_of_ascii c) - 48)) s'
  end.

(** [s.split(sep, 1)]: at most one split, at the first [sep]. *)
Fixpoint partition (sep : ascii) (s : string) : option (string * string) :=
  match s with
  | EmptyString => None
  | String c s' =>
      if Ascii.eqb c sep then Some (EmptyString, s')
      else match partition sep s' with
           | Some (l, r) => Some (String c l, r)
           | None => None
           end
  end.

Definition split1 (sep : ascii) (s : string) : list string :=
  match partition sep s with
  | Some (l, r) => [l; r]
  | None => [s]
  end.

(** [sep in s] *)
Definition contains (sep : ascii) (s : string) : bool := any (Ascii.eqb sep) s.

(** [s.isascii()] *)
Definition isascii (s : string) : bool :=
  all (λ c, (nat_of_ascii c <? 128)%nat) s.

End PyStr.

(** ** Image references: [Cioban.__get_image_parts] *)

Definition __get_image_parts (image_with_digest : string) : string * option string :=
  let image_parts := PyStr.split1 "@" image_with_digest in
  let image := nth 0 image_parts EmptyString in
  (* try: image_sha = image_parts[1]  except IndexError: pass *)
  let image_sha := image_parts !! 1%nat in
  (image, image_sha).

(** ** Sleep interval: the parsing in [Cioban.__init__] *)

Inductive sleep_type := seconds | minutes | hours | days | weeks.

(** The [relation] dictionary of [__init__]. *)
Definition relation (c : ascii) : option sleep_type :=
  if Ascii.eqb c "s" then Some seconds
  else if Ascii.eqb c "m" then Some minutes
  else if Ascii.eqb c "h" then Some hours
  else if Ascii.eqb c "d" then Some days
  else if Ascii.eqb c "w" then Some weeks
  else None.

(** The two [ValueError]s [__init__] can end with: the one it raises itself
    and the one [int()] raises on the bare-integer path. *)
Inductive ValueError :=
| NotUnderstood (sleep_time : string)
| InvalidLiteral (sleep_time : string).

Definition init_sleep (sleep_time : string) : ValueError + (Z * sleep_type) :=
  if PyStr.any PyStr.isalpha sleep_time then
    match PyStr.int (PyStr.but_last sleep_time) with
    | None => inl (NotUnderstood sleep_time)
    | Some sleep =>
        match PyStr.last_char sleep_time ≫= relation with
        | Some ty => inr (sleep, ty)
        | None => inl (NotUnderstood sleep_time)
        end
    end
  else
    match PyStr.int sleep_time with
    | Some sleep => inr (sleep, minutes)
    | None => inl (InvalidLiteral sleep_time)
    end.

(** [getattr(pause, sleep_type)(sleep)]: the [pause] functions reduce to
    [pause.seconds]. *)
Definition pause_seconds (ty : sleep_type) (n : Z) : Z :=
  match ty with
  | seconds => n
  | minutes => 60 * n
  | hours => 60 * (60 * n)
  | days => 60 * (60 * (24 * n))
  | weeks => 60 * (60 * (24 * (7 * n)))
  end%Z.


(** ** Services, settings, events *)

(** A [docker.models.services.Service]: the attributes the controller
    reads.  [svc_update_state] is [attrs['UpdateStatus']['State']], [None]
    when [UpdateStatus] is missing or empty. *)
Record Service := {
  svc_id : string;
  svc_short_id : string;
  svc_name : string;
  svc_image : string;   (* attrs['Spec']['TaskTemplate']['ContainerSpec']['Image'] *)
  svc_update_state : option string;
}.

(** The entries of [Cioban.settings] the reconciliation loop reads. *)
Record Settings := {
  filters : list (string * string);
  blacklist : list string;
  sleep_time : string;
  prometheus_port : Z;
  notify_include_new_image : bool;
  notify_include_old_image : bool;
}.

(** Modelled from the spec: the payload of the notification channels
    ([cioban/notifiers] is not among the sources), that is the keyword
    arguments [_run] passes to [notifiers.notify]. *)
Record Notification := {
  service_name : string;
  service_short_id : string;
  old_image : option string;
  new_image : option string;
}.

(** The calls to the collaborators, in the order they are made. *)
Inductive Event :=
| EvServicesList (f : list (string * string))
| EvRegistryData (image : string) (digest : option string)
| EvCounterInc (name id short_id : string) (amount : nat)
| EvNotFound (service : Service)
| EvServiceUpdate (service : Service) (image : string) (force_update ok : bool)
| EvServiceReload (service : Service) (found : bool)
| EvPause (secs : Z)
| EvNotify (n : Notification)
| EvState (phase : string)
| EvHttpServer (port : Z).

(** What [__get_updated_image] returns: [None], [False] or a string. *)
Inductive PyVal := PyNone | PyFalse | PyString (s : string).

(** Python truthiness of such a value. *)
Definition truthy (v : PyVal) : bool :=
  match v with
  | PyNone | PyFalse => false
  | PyString s => negb (String.eqb s "")
  end.

(** ** The collaborators *)

(** The Docker client as the controller uses it, over a world [W] that
    the calls may change.  [None] and [false] stand for the exception the
    source catches at that call. *)
Class Platform (W : Type) := {
  (** [docker.services.list(filters=...)] *)
  services_list : list (string * string) -> W -> list Service * W;
  (** [docker.images.get_registry_data(image).attrs['Descriptor']['digest']],
      [None] on [docker.errors.APIError] *)
  get_registry_data : string -> W -> option string * W;
  (** [service.update(image=..., force_update=...)], [false] on
      [docker.errors.APIError] *)
  service_update : Service -> string -> bool -> W -> bool * W;
  (** [service.reload()]: the new attributes, [None] on
      [docker.errors.NotFound] *)
  service_reload : Service -> W -> option Service * W;
  (** whether the priming expression of [_run] evaluates for the service,
      [false] on [docker.errors.NotFound] *)
  service_present : Service -> W -> bool * W;
}.

(** The labels of one series of [PROM_SVC_UPDATE_COUNTER]. *)
Definition Labels : Type := string * string * string.

Section Controller.
Context {W : Type} `{Platform W}.

Record State := {
  world : W;
  metrics : gmap Labels nat;   (* PROM_SVC_UPDATE_COUNTER *)
}.

(** A computation ends with a value, or is still waiting when the fuel
    of an unbounded loop is spent; the state reached and the events
    emitted on the way are kept in both cases. *)
Inductive Res (A : Type) :=
| Done (a : A) (st : State) (evs : list Event)
| Waiting (st : State) (evs : list Event).
Arguments Done {A} a st evs.
Arguments Waiting {A} st evs.

Definition M (A : Type) : Type := State -> Res A.

Definition final {A} (r : Res A) : State :=
  match r with Done _ st _ => st | Waiting st _ => st end.

Definition events {A} (r : Res A) : list Event :=
  match r with Done _ _ evs => evs | Waiting _ evs => evs end.

(** The events of [r], after those in [evs]. *)
Definition after {A} (evs : list Event) (r : Res A) : Res A :=
  match r with
  | Done a st evs' => Done a st (evs ++ evs')
  | Waiting st evs' => Waiting st (evs ++ evs')
  end.

(** A result without its value. *)
Definition forget {A} (r : Res A) : Res unit :=
  match r with
  | Done _ st evs => Done tt st evs
  | Waiting st evs => Waiting st evs
  end.

Definition ret {A} (a : A) : M A := fun st => Done a st [].

Definition bind {A B} (m : M A) (k : A -> M B) : M B :=
  fun st => match m st with
            | Done a st' evs => after evs (k a st')
            | Waiting st' evs => Waiting st' evs
            end.

Definition emit (e : Event) : M unit := fun st => Done tt st [e].

Definition call {A} (f : W -> A * W) : M A :=
  fun st => let '(a, w) := f (world st) in
            Done a {| world := w; metrics := metrics st |} [].

Definition out_of_fuel {A} : M A := fun st => Waiting st [].

(** Modelled from the spec: [PROM_SVC_UPDATE_COUNTER], declared in
    [cioban/lib/prometheus.py], which is not among the sources.  It is the
    counter of the metrics sink, one series per (name, id, short id),
    "increment by 1 on successful update, initialized to 0 on priming":
    [labels(name, id, short_id)] creates the series at 0 when it is new and
    [inc(amount)] adds to it. *)
Definition counter_inc (k : Labels) (amount : nat) : M unit :=
  fun st => Done tt {| world := world st;
                       metrics := <[k := (default 0 (metrics st !! k) + amount)%nat]> (metrics st) |}
              [EvCounterInc k.1.1 k.1.2 k.2 amount].
End Controller.

Arguments State W : clear implicits.
Arguments Res W A : clear implicits.
Arguments M W A : clear implicits.
Arguments Done {W A} a st evs.
Arguments Waiting {W A} st evs.

Global Instance M_ret {W} : MRet (M W) := @ret W.
Global Instance M_bind {W} : MBind (M W) := fun A B k m => bind m k.

(** ** The controller: [class Cioban] *)

Section Cioban.
Context {W : Type} `{Platform W}.
Variable settings : Settings.

Local Abbreviation M := (M W).

(** *** [get_services] *)

(** [services.remove(service)]: drops the first element equal to
    [service]; two docker models are equal when their ids are.  The loop
    removes a service it has just read from the list, so the [ValueError]
    of a missing element cannot occur. *)
Fixpoint list_remove (service : Service) (services : list Service) : list Service :=
  match services with
  | [] => []
  | o :: rest =>
      if String.eqb (svc_id o) (svc_id service) then rest
      else o :: list_remove service rest
  end.

(** The inner [for service in services] of [get_services]: the list
    iterator is an index [i] into the list, which the body shortens.
    [n] bounds the number of steps; the loop ends when the index runs
    past the end. *)
Fixpoint blacklist_loop (n i : nat) (blacklist_service : string)
    (services : list Service) : list Service :=
  match n with
  | O => services
  | S n' =>
      match services !! i with
      | None => services
      | Some service =>
          if String.eqb (svc_name service) blacklist_service
          then blacklist_loop n' (S i) blacklist_service (list_remove service services)
          else blacklist_loop n' (S i) blacklist_service services
      end
  end.

Definition blacklist_pass (services : list Service) (blacklist_service : string)
  : list Service :=
  blacklist_loop (List.length services) 0 blacklist_service services.

Definition get_services : M (list Service) :=
  services ← call (services_list (filters settings));
  emit (EvServicesList (filters settings));;
  mret (foldl blacklist_pass services (blacklist settings)).

(** *** [__get_updated_image] *)

Definition __get_updated_image (image : string) (image_sha : option string) : M PyVal :=
  registry_data ← call (get_registry_data image);
  emit (EvRegistryData image registry_data);;
  match registry_data with
  | Some digest =>
      let updated_image := PyString (image ++ "@" ++ digest) in
      if decide (image_sha = Some digest) then mret PyFalse
      else mret updated_image
  | None => mret PyNone
  end.

(** *** [__update_image] *)

Definition __update_image (service : Service) (image : string) : M bool :=
  service_updated ← call (service_update service image true);
  emit (EvServiceUpdate service image true service_updated);;
  mret service_updated.

(** *** [_run] *)

(** The first loop of [_run].  [iter] is what is left of the list object
    the [for] statement iterates; [services] is the variable of that
    name, which the handler rebinds. *)
Fixpoint priming (iter services : list Service) : M (list Service) :=
  match iter with
  | [] => mret services
  | service :: iter' =>
      present ← call (service_present service);
      if present : bool then
        counter_inc (svc_name service, svc_id service, svc_short_id service) 0;;
        priming iter' services
      else
        emit (EvNotFound service);;
        services ← get_services;
        priming iter' services
  end.

(** [service.attrs.get('UpdateStatus') and
    service.attrs['UpdateStatus'].get('State') == 'updating'] *)
Definition updating (service : Service) : bool :=
  match svc_update_state service with
  | Some state => String.eqb state "updating"
  | None => false
  end.

(** The [while updating] loop.  It returns the service object as the
    last successful [reload] left it and the [services] variable. *)
Fixpoint convergence_wait (fuel : nat) (service : Service)
    (services : list Service) : M (Service * list Service) :=
  match fuel with
  | O => out_of_fuel
  | S fuel' =>
      reloaded ← call (service_reload service);
      emit (EvServiceReload service (bool_decide (is_Some reloaded)));;
      match reloaded with
      | None =>
          services ← get_services;
          mret (service, services)
      | Some service =>
          if updating service then
            emit (EvPause 1);;
            convergence_wait fuel' service services
          else mret (service, services)
      end
  end.

(** The [notify] dictionary [_run] builds once the service is updated;
    [service] is the object after the wait. *)
Definition notification (service_name image_with_digest : string)
    (service : Service) : Notification :=
  {| service_name := service_name;
     service_short_id := svc_short_id service;
     old_image := if notify_include_old_image settings
                  then Some image_with_digest else None;
     new_image := if notify_include_new_image settings
                  then Some (svc_image service) else None |}.

(** The body of the second loop of [_run], for one [service]. *)
Definition reconcile_service (fuel : nat) (service : Service)
    (services : list Service) : M (list Service) :=
  let service_name := svc_name service in
  let image_with_digest := svc_image service in
  let '(image, image_sha) := __get_image_parts image_with_digest in
  update_image ← __get_updated_image image image_sha;
  service_updated ←
    match update_image with
    | PyString new_ref =>
        if truthy update_image then __update_image service new_ref
        else mret false
    | _ => mret false
    end;
  if service_updated : bool then
    '(service, services) ← convergence_wait fuel service services;
    counter_inc (service_name, svc_id service, svc_short_id service) 1;;
    emit (EvNotify (notification service_name image_with_digest service));;
    mret services
  else mret services.

Fixpoint reconcile (fuel : nat) (iter services : list Service) : M (list Service) :=
  match iter with
  | [] => mret services
  | service :: iter' =>
      services ← reconcile_service fuel service services;
      reconcile fuel iter' services
  end.

Definition _run (fuel : nat) : M unit :=
  services ← get_services;
  services ← priming services services;
  reconcile fuel services services;;
  mret tt.

(** *** [run] and the start of the process *)

(** [cycles] bounds the [while True] of [run]. *)
Fixpoint run_loop (cycles fuel : nat) (sleep : Z) (ty : sleep_type) : M unit :=
  match cycles with
  | O => out_of_fuel
  | S cycles' =>
      emit (EvState "running");;
      _run fuel;;
      emit (EvState "sleeping");;
      emit (EvPause (pause_seconds ty sleep));;
      run_loop cycles' fuel sleep ty
  end.

Definition run (cycles fuel : nat) (sleep : Z) (ty : sleep_type) : M unit :=
  emit (EvHttpServer (prometheus_port settings));;
  run_loop cycles fuel sleep ty.

(** The end of [__main__]: build the [Cioban] object, which parses the
    sleep interval, then [c.run()]. *)
Definition main (cycles fuel : nat) (st : State W) : ValueError + Res W unit :=
  match init_sleep (sleep_time settings) with
  | inl e => inl e
  | inr (sleep, ty) => inr (run cycles fuel sleep ty st)
  end.

End Cioban.



(** The labels [_run] increments after the convergence wait left the
    service object as [last]. *)
Definition labels_after (service last : Service) : Labels :=
  (svc_name service, svc_id last, svc_short_id last).

(** The service name an update call, a metric call or a notification is
    about. *)
Definition event_service (e : Event) : option string :=
  match e with
  | EvCounterInc name _ _ _ => Some name
  | EvServiceUpdate service _ _ _ => Some (svc_name service)
  | EvNotify n => Some (service_name n)
  | _ => None
  end.

Definition is_registry_query (e : Event) : bool :=
  match e with EvRegistryData _ _ => true | _ => false end.

Definition is_pause (e : Event) : bool :=
  match e with EvPause _ => true | _ => false end.

(** A notification for the service called [name]. *)
Definition is_notify (name : string) (e : Event) : bool :=
  match e with
  | EvNotify n => String.eqb (service_name n) name
  | _ => false
  end.

(** An increment (by 1) of a counter of the service called [name]. *)
Definition is_increment (name : string) (e : Event) : bool :=
  match e with
  | EvCounterInc name' _ _ (S _) => String.eqb name' name
  | _ => false
  end.

(** An update call that succeeded, for the service called [name]. *)
Definition is_updated (name : string) (e : Event) : bool :=
  match e with
  | EvServiceUpdate service _ _ true => String.eqb (svc_name service) name
  | _ => false
  end.

(** What the convergence wait emits: reloads, pauses and, when the
    service is gone, a fresh listing. *)
Definition is_wait_event (e : Event) : bool :=
  match e with
  | EvServiceReload _ _ | EvPause _ | EvServicesList _ => true
  | _ => false
  end.

(** What the priming loop emits: increments by 0, the report of a missing
    service and the fresh listing. *)
Definition is_priming_event (e : Event) : bool :=
  match e with
  | EvCounterInc _ _ _ O | EvNotFound _ | EvServicesList _ => true
  | _ => false
  end.

(** No update call, metric call or notification of [e] is about a service
    named in [bl]. *)
Definition allowed (bl : list string) (e : Event) : Prop :=
  ∀ name, event_service e = Some name → name ∉ bl.

(** A service the blacklist [bl] does not name. *)
Definition eligible (bl : list string) (service : Service) : Prop :=
  svc_name service ∉ bl.

(** Neither a metric call nor a notification. *)
Definition is_quiet (e : Event) : bool :=
  match e with
  | EvCounterInc _ _ _ _ | EvNotify _ => false
  | _ => true
  end.

Definition count (p : Event → bool) (evs : list Event) : nat :=
  List.length (List.filter p evs).

(** ** Reading a run *)

Section Observations.
Context {W : Type} `{Platform W}.

(** The convergence wait of [service] started in world [w] sees [n]
    polls in state "updating" and then ends: [last] is the service object
    as the last successful [reload] left it, [vanished] tells whether the
    ending [reload] raised [NotFound], [w'] is the world after it. *)
Inductive wait_ends : W → Service → nat → Service → bool → W → Prop :=
| wait_converged w service service' w' :
    service_reload service w = (Some service', w') →
    updating service' = false →
    wait_ends w service 0 service' false w'
| wait_vanished w service w' :
    service_reload service w = (None, w') →
    wait_ends w service 0 service true w'
| wait_updating w service service' w' n last vanished w'' :
    service_reload service w = (Some service', w') →
    updating service' = true →
    wait_ends w' service' n last vanished w'' →
    wait_ends w service (S n) last vanished w''.


(** Every listing of the platform holds pairwise distinct names and
    pairwise distinct ids: they identify the services. *)
Definition distinct_listings : Prop :=
  ∀ f w, NoDup (svc_name <$> (services_list f w).1)
         ∧ NoDup (svc_id <$> (services_list f w).1).

(** The tally of a result for one service name: as many notifications as
    increments; as many as successful update calls when the computation
    returned, and at most one less while it is still waiting. *)
Definition tallied {A} (name : string) (r : Res W A) : Prop :=
  count (is_notify name) (events r) = count (is_increment name) (events r)
  ∧ match r with
    | Done _ _ evs => count (is_updated name) evs = count (is_notify name) evs
    | Waiting _ evs =>
        (count (is_notify name) evs ≤ count (is_updated name) evs
         ∧ count (is_updated name) evs ≤ S (count (is_notify name) evs))%nat
    end.
End Observations.

(** ** A scripted platform *)

(** A Docker double for concrete runs: the answers are fixed in advance,
    the world counts the [services.list] and [reload] calls made so far. *)
Record Script := {
  script_listing : nat → list Service;
  script_digest : string → option string;
  script_update_ok : Service → bool;
  script_reload : nat → Service → option Service;
  script_present : Service → bool;
}.

Record Calls := { lists : nat; reloads : nat }.

Definition scripted (sc : Script) : Platform Calls := {|
  services_list := λ _ w,
    (script_listing sc (lists w), {| lists := S (lists w); reloads := reloads w |});
  get_registry_data := λ image w, (script_digest sc image, w);
  service_update := λ service _ _ w, (script_update_ok sc service, w);
  service_reload := λ service w,
    (script_reload sc (reloads w) service,
     {| lists := lists w; reloads := S (reloads w) |});
  service_present := λ service w, (script_present sc service, w);
|}.

Module Scenario.

Definition service (name image : string) : Service :=
  {| svc_id := "id-" ++ name; svc_short_id := name; svc_name := name;
     svc_image := image; svc_update_state := None |}.

Definition api := service "api" "repo/api@sha256:AAA".
Definition web := service "web" "repo/web@sha256:AAA".
Definition db := service "db" "repo/db@sha256:AAA".
Definition worker := service "worker" "repo/worker@sha256:AAA".

Definition settings : Settings :=
  {| filters := []; blacklist := ["worker"]; sleep_time := "5m";
     prometheus_port := 9308%Z;
     notify_include_new_image := true; notify_include_old_image := true |}.

Definition start : State Calls :=
  {| world := {| lists := 0; reloads := 0 |}; metrics := ∅ |}.

(** [reload] answers with the image the registry has, converged. *)
Definition rolled_out (s : Service) : Service :=
  {| svc_id := svc_id s; svc_short_id := svc_short_id s; svc_name := svc_name s;
     svc_image := (__get_image_parts (svc_image s)).1 ++ "@sha256:BBB";
     svc_update_state := Some "completed" |}.

Definition rolling (s : Service) : Service :=
  {| svc_id := svc_id s; svc_short_id := svc_short_id s; svc_name := svc_name s;
     svc_image := svc_image s; svc_update_state := Some "updating" |}.

(** Every repository is at [sha256:BBB] in the registry; [api] is gone at
    its first [reload], and the listing that follows holds [db] alone. *)
Definition vanishing : Script :=
  {| script_listing := λ n, match n with O => [api; web] | _ => [db] end;
     script_digest := λ _, Some "sha256:BBB";
     script_update_ok := λ _, true;
     script_reload := λ n s, match n with O => None | _ => Some (rolled_out s) end;
     script_present := λ _, true |}.

(** Every repository is at [sha256:AAA]; [api] is reported missing while
    the counters are primed, and the listing that follows holds [db]
    alone. *)
Definition missing : Script :=
  {| script_listing := λ n, match n with O => [api; web] | _ => [db] end;
     script_digest := λ _, Some "sha256:AAA";
     script_update_ok := λ _, true;
     script_reload := λ _ s, Some s;
     script_present := λ s, negb (String.eqb (svc_name s) "api") |}.

(** A steady listing of three services, one of them blacklisted; the
    registry is at [sha256:BBB] and every rollout takes two polls. *)
Definition steady : Script :=
  {| script_listing := λ _, [api; worker; web];
     script_digest := λ _, Some "sha256:BBB";
     script_update_ok := λ _, true;
     script_reload := λ n s,
       match n `mod` 3 with
       | 2 => Some (rolled_out s)
       | _ => Some (rolling s)
       end;
     script_present := λ _, true |}.

(** The registry is unreachable and the platform refuses updates. *)
Definition failing (digest : option string) : Script :=
  {| script_listing := λ _, [api; web];
     script_digest := λ _, digest;
     script_update_ok := λ _, false;
     script_reload := λ _ s, Some s;
     script_present := λ _, true |}.

(** Two services listed under one name. *)
Definition twins : Script :=
  {| script_listing := λ _,
       [worker;
        {| svc_id := "id-other"; svc_short_id := "other"; svc_name := "worker";
           svc_image := "repo/worker"; svc_update_state := None |}];
     script_digest := λ _, Some "sha256:BBB";
     script_update_ok := λ _, true;
     script_reload := λ _ s, Some (rolled_out s);
     script_present := λ _, true |}.

End Scenario.

(** ** Reading the events of a cycle *)

(** The repository and the pinned digest of a listed service, as [_run]
    gets them from [__get_image_parts]. *)
Definition svc_repository (service : Service) : string :=
  (__get_image_parts (svc_image service)).1.

Definition svc_pinned (service : Service) : option string :=
  (__get_image_parts (svc_image service)).2.

(** The labels of the counter series of a listed service. *)
Definition svc_labels (service : Service) : Labels :=
  (svc_name service, svc_id service, svc_short_id service).


(** An update call the platform accepted, for the service of the series
    [k]. *)
Definition is_accepted (k : Labels) (e : Event) : bool :=
  match e with
  | EvServiceUpdate service _ _ true => bool_decide (svc_labels service = k)
  | _ => false
  end.

(** The events one [_run] can emit, with what they carry. *)
Inductive cycle_event (settings : Settings) : Event → Prop :=
| cycle_listing :
    cycle_event settings (EvServicesList (filters settings))
| cycle_primed service :
    cycle_event settings
      (EvCounterInc (svc_name service) (svc_id service) (svc_short_id service) 0)
| cycle_missing service :
    cycle_event settings (EvNotFound service)
| cycle_query service registry_data :
    cycle_event settings (EvRegistryData (svc_repository service) registry_data)
| cycle_update service digest ok :
    svc_pinned service ≠ Some digest →
    cycle_event settings
      (EvServiceUpdate service (svc_repository service ++ "@" ++ digest) true ok)
| cycle_reload service found :
    cycle_event settings (EvServiceReload service found)
| cycle_pause :
    cycle_event settings (EvPause 1)
| cycle_counted service last :
    cycle_event settings
      (EvCounterInc (svc_name service) (svc_id last) (svc_short_id last) 1)
| cycle_notified service last :
    cycle_event settings
      (EvNotify (notification settings (svc_name service) (svc_image service) last)).

(** The services of the update calls, in the order of the calls. *)
Definition update_calls (evs : list Event) : list Service :=
  omap (λ e, match e with EvServiceUpdate service _ _ _ => Some service | _ => None end)
    evs.

(** The repositories of the registry queries, in the order of the
    queries. *)
Definition queries (evs : list Event) : list string :=
  omap (λ e, match e with EvRegistryData image _ => Some image | _ => None end) evs.

(** The phases the state gauge went through. *)
Definition phases (evs : list Event) : list string :=
  omap (λ e, match e with EvState phase => Some phase | _ => None end) evs.

(** What the metric calls of [evs] add to the series [k]. *)
Definition increments (k : Labels) (evs : list Event) : nat :=
  sum_list
    (omap (λ e, match e with
                | EvCounterInc name id short_id amount =>
                    if decide ((name, id, short_id) = k) then Some amount else None
                | _ => None
                end) evs).

Definition is_reload (e : Event) : bool :=
  match e with EvServiceReload _ _ => true | _ => false end.

(** A registry query or an update call the platform refused. *)
Definition is_attempt (e : Event) : bool :=
  match e with
  | EvRegistryData _ _ | EvServiceUpdate _ _ _ false => true
  | _ => false
  end.

Section Accounting.
Context {W : Type} `{Platform W}.

(** The counters after [m] are the counters before plus the increments
    of its metric calls, and no series is dropped. *)
Definition accounted {A} (m : M W A) : Prop :=
  ∀ st k,
    default 0%nat (metrics (final (m st)) !! k)
    = (default 0%nat (metrics st !! k) + increments k (events (m st)))%nat
    ∧ (is_Some (metrics st !! k) → is_Some (metrics (final (m st)) !! k)).

(** Every update call is refused. *)
Definition updates_refused : Prop :=
  ∀ service image w, (service_update service image true w).1 = false.

(** No service is reported missing while the counters are primed: the
    expression in the [try] block of the priming loop reads the [id] and
    the [short_id] of the listed object and calls the metrics registry; it
    sends no request to the platform. *)
Definition all_present : Prop :=
  ∀ service w, (service_present service w).1 = true.

(** [reload] fetches the service by its id: the object keeps its id. *)
Definition reload_keeps_id : Prop :=
  ∀ service w service',
    (service_reload service w).1 = Some service' →
    svc_id service' = svc_id service ∧ svc_short_id service' = svc_short_id service.
End Accounting.

(** ** The start of the process: [__main__] and [Cioban.__init__] *)

Module PyText.

(** [c.lower()] on ASCII. *)
Definition lower_char (c : ascii) : ascii :=
  if PyStr.between 65 90 c then ascii_of_nat (nat_of_ascii c + 32) else c.

(** [s.lower()] *)
Fixpoint lower (s : string) : string :=
  match s with
  | EmptyString => EmptyString
  | String c s' => String (lower_char c) (lower s')
  end.

(** [p in s] for two strings. *)
Fixpoint contains (p s : string) : bool :=
  String.prefix p s
  || match s with
     | EmptyString => false
     | String _ s' => contains p s'
     end.

(** [s.split(sep)] for a separator of one character: a field between any
    two separators, empty ones included. *)
Fixpoint split (sep : ascii) (s : string) : list string :=
  match s with
  | EmptyString => [EmptyString]
  | String c s' =>
      if Ascii.eqb c sep then EmptyString :: split sep s'
      else match split sep s' with
           | field :: fields => String c field :: fields
           | [] => [String c EmptyString]
           end
  end.

(** [sep.join(fields)] *)
Fixpoint join (sep : string) (fields : list string) : string :=
  match fields with
  | [] => EmptyString
  | [field] => field
  | field :: fields' => field ++ sep ++ join sep fields'
  end.

(** The characters of [s], as [for c in s] yields them. *)
Fixpoint chars (s : string) : list string :=
  match s with
  | EmptyString => []
  | String c s' => String c EmptyString :: chars s'
  end.

End PyText.

(** ** The interval format *)

(** The integers of the interval, in the words of the language reference
    for [int()] in base 10: white space, an optional sign, groups of digits
    with one underscore between two groups, white space.  The value reads
    the digits of the groups from the left. *)
Definition integer_literal (s : string) (z : Z) : Prop :=
  ∃ l sign groups r,
    s = l ++ sign ++ PyText.join "_" groups ++ r
    ∧ PyStr.all PyStr.isspace l = true ∧ PyStr.all PyStr.isspace r = true
    ∧ (sign = "" ∨ sign = "+" ∨ sign = "-")
    ∧ groups ≠ []
    ∧ Forall (λ g, g ≠ "" ∧ PyStr.all PyStr.isdigit g = true) groups
    ∧ z = ((if String.eqb sign "-" then -1 else 1)
           * foldl PyStr.decimal 0 groups)%Z.

(** The leading portion of an interval: what precedes its last character
    when that is a letter, the whole string otherwise. *)
Definition leading_portion (s : string) : string :=
  match PyStr.last_char s with
  | Some c => if PyStr.isalpha c then PyStr.but_last s else s
  | None => s
  end.

(** The groups that follow the first one, each after its underscore. *)
Fixpoint later_groups (groups : list string) : string :=
  match groups with
  | [] => ""
  | g :: groups' => "_" ++ g ++ later_groups groups'
  end.

(** The unit letters and their units, as the interval format lists
    them. *)
Definition unit_letters : list (ascii * sleep_type) :=
  [("s"%char, seconds); ("m"%char, minutes); ("h"%char, hours);
   ("d"%char, days); ("w"%char, weeks)].

(** The values found in the options of [__main__] and in
    [Cioban.settings]. *)
Inductive Value :=
| VNone
| VBool (b : bool)
| VInt (z : Z)
| VStr (s : string)
| VList (l : list string)
| VDict (d : list (string * string)).

(** Python truthiness of a value. *)
Definition truthy_value (v : Value) : bool :=
  match v with
  | VNone => false
  | VBool b => b
  | VInt z => negb (z =? 0)%Z
  | VStr s => negb (String.eqb s "")
  | VList l => match l with [] => false | _ => true end
  | VDict d => match d with [] => false | _ => true end
  end.

(** [for x in v]: the elements of a list, the characters of a string, the
    keys of a dict; [None] stands for the [TypeError] of the other
    values. *)
Definition iterate (v : Value) : option (list string) :=
  match v with
  | VList l => Some l
  | VStr s => Some (PyText.chars s)
  | VDict d => Some d.*1
  | _ => None
  end.

(** [d[k] = v] on a dict kept in insertion order. *)
Fixpoint dict_set (k : string) (v : Value) (d : list (string * Value))
  : list (string * Value) :=
  match d with
  | [] => [(k, v)]
  | (k', v') :: d' =>
      if String.eqb k' k then (k, v) :: d' else (k', v') :: dict_set k v d'
  end.

(** [d.get(k)] *)
Fixpoint dict_get (k : string) (d : list (string * Value)) : option Value :=
  match d with
  | [] => None
  | (k', v') :: d' => if String.eqb k' k then Some v' else dict_get k d'
  end.

(** [os.environ.get(k)] when it is truthy: the variable is set and not
    empty. *)
Definition environ_set (env : gmap string string) (k : string) : option string :=
  match env !! k with
  | Some v => if String.eqb v "" then None else Some v
  | None => None
  end.

(** The class attribute [Cioban.settings]. *)
Definition default_settings : gmap string Value :=
  list_to_map
    [("filters", VDict []); ("blacklist", VDict []); ("sleep_time", VStr "5m");
     ("prometheus_port", VInt 9308); ("notifiers", VList []);
     ("telegram_chat_id", VNone); ("telegram_token", VNone);
     ("notify_include_new_image", VBool false);
     ("notify_include_old_image", VBool false)].

(** How [__init__] and the block under [if __name__ == '__main__'] can
    end: [filters[1]] raises [IndexError], [int] of the port raises
    [ValueError], the sleep interval is not understood, or a setting is of
    a type the code cannot iterate or parse ([TypeError]; a [KeyError] for
    a dict as sleep interval on Python 3.12). *)
Inductive StartError :=
| FilterIndexError
| PortValueError (port : string)
| SleepValueError (e : ValueError)
| SettingTypeError (key : string).

(** What [__init__] leaves: the settings, the interval, and the calls
    [notifiers.register(notifier, **notifier_options)] it made. *)
Record Cioban := {
  c_settings : gmap string Value;
  c_sleep : Z;
  c_sleep_type : sleep_type;
  c_registered : list (string * list (string * Value));
}.

(** The first loop of [__init__]: an option is taken when its key is a
    key of the settings, and dropped otherwise. *)
Definition merge_settings (settings : gmap string Value)
    (kwargs : list (string * Value)) : gmap string Value :=
  foldl (λ settings kv,
           if decide (is_Some (settings !! kv.1))
           then <[kv.1 := kv.2]> settings else settings)
    settings kwargs.

(** The options [__init__] passes on to one notifier. *)
Definition notifier_options (notifier : string) (kwargs : list (string * Value))
  : list (string * Value) :=
  foldl (λ notifier_options kv,
           if PyText.contains (PyText.lower notifier) (PyText.lower kv.1)
           then dict_set (PyText.lower kv.1) kv.2 notifier_options
           else notifier_options)
    [] kwargs.

Definition __init__ (settings : gmap string Value) (kwargs : list (string * Value))
  : StartError + Cioban :=
  let settings := merge_settings settings kwargs in
  match settings !! "sleep_time" with
  | Some (VStr sleep_time) =>
      match init_sleep sleep_time with
      | inl e => inl (SleepValueError e)
      | inr (sleep, ty) =>
          let build registered :=
            inr {| c_settings := settings; c_sleep := sleep; c_sleep_type := ty;
                   c_registered := registered |} in
          match settings !! "notifiers" with
          | Some notifiers =>
              if truthy_value notifiers then
                match iterate notifiers with
                | Some names =>
                    build ((λ notifier, (notifier, notifier_options notifier kwargs))
                             <$> names)
                | None => inl (SettingTypeError "notifiers")
                end
              else build []
          | None => build []
          end
      end
  | _ => inl (SettingTypeError "sleep_time")
  end.

(** The options the block under [if __name__ == '__main__'] builds from
    the environment. *)
Definition main_options (env : gmap string string)
  : StartError + list (string * Value) :=
  let options := [("notifiers", VList []); ("blacklist", VList [])] in
  match
    match environ_set env "FILTER_SERVICES" with
    | Some filters =>
        match PyStr.split1 "=" filters with
        | [k; v] => Some (dict_set "filters" (VDict [(k, v)]) options)
        | _ => None
        end
    | None => Some options
    end
  with
  | None => inl FilterIndexError
  | Some options =>
      let options :=
        match environ_set env "BLACKLIST_SERVICES" with
        | Some blacklist =>
            dict_set "blacklist" (VList (PyText.split " " blacklist)) options
        | None => options
        end in
      let options :=
        match environ_set env "TELEGRAM_TOKEN" with
        | Some token => dict_set "telegram_token" (VStr token) options
        | None => options
        end in
      let options :=
        match environ_set env "TELEGRAM_CHAT_ID" with
        | Some chat_id => dict_set "telegram_chat_id" (VStr chat_id) options
        | None => options
        end in
      let options :=
        match environ_set env "NOTIFY_INCLUDE_NEW_IMAGE" with
        | Some _ => dict_set "notify_include_new_image" (VBool true) options
        | None => options
        end in
      let options :=
        match environ_set env "NOTIFY_INCLUDE_OLD_IMAGE" with
        | Some _ => dict_set "notify_include_old_image" (VBool true) options
        | None => options
        end in
      let options :=
        if from_option truthy_value false (dict_get "telegram_token" options)
           && from_option truthy_value false (dict_get "telegram_chat_id" options)
        then
          match dict_get "notifiers" options with
          | Some (VList notifiers) =>
              dict_set "notifiers" (VList (notifiers ++ ["telegram"])) options
          | _ => options
          end
        else options in
      let options :=
        dict_set "sleep_time" (VStr (default "5m" (env !! "SLEEP_TIME"))) options in
      match env !! "PORT" with
      | Some port =>
          match PyStr.int port with
          | Some z => inr (dict_set "prometheus_port" (VInt z) options)
          | None => inl (PortValueError port)
          end
      | None => inr (dict_set "prometheus_port" (VInt 9308) options)
      end
  end.

(** The block under [if __name__ == '__main__'] up to [c.run()]: the
    options, then [cioban.Cioban(options)]. *)
Definition main_block (env : gmap string string) : StartError + Cioban :=
  match main_options env with
  | inl e => inl e
  | inr options => __init__ default_settings options
  end.

(** The settings [run], [_run] and [get_services] read, when they are of
    the types the controller handles: the filters a dict, the blacklist
    something to iterate, the port an integer, the two flags by their
    truthiness. *)
Definition settings_record (d : gmap string Value) : option Settings :=
  match d !! "filters", d !! "blacklist" ≫= iterate, d !! "sleep_time",
        d !! "prometheus_port", d !! "notify_include_new_image",
        d !! "notify_include_old_image" with
  | Some (VDict f), Some names, Some (VStr s), Some (VInt port), Some new, Some old =>
      Some {| filters := f; blacklist := names; sleep_time := s;
              prometheus_port := port;
              notify_include_new_image := truthy_value new;
              notify_include_old_image := truthy_value old |}
  | _, _, _, _, _, _ => None
  end.

(** The settings an environment stands for: the record the theorems on
    [main_block] compare the settings of the started controller with. *)
Definition environment_settings (env : gmap string string) : Settings :=
  {| filters := match environ_set env "FILTER_SERVICES" ≫= PyStr.partition "=" with
                | Some kv => [kv]
                | None => []
                end;
     blacklist := match environ_set env "BLACKLIST_SERVICES" with
                  | Some blacklist => PyText.split " " blacklist
                  | None => []
                  end;
     sleep_time := default "5m" (env !! "SLEEP_TIME");
     prometheus_port := match env !! "PORT" with
                        | Some port => default 9308%Z (PyStr.int port)
                        | None => 9308%Z
                        end;
     notify_include_new_image :=
       match environ_set env "NOTIFY_INCLUDE_NEW_IMAGE" with
       | Some _ => true
       | None => false
       end;
     notify_include_old_image :=
       match environ_set env "NOTIFY_INCLUDE_OLD_IMAGE" with
       | Some _ => true
       | None => false
       end |}.

(** Environments and states for concrete starts and runs. *)
Module Cases.

Definition full : gmap string string :=
  list_to_map
    [("FILTER_SERVICES", "label=a=b"); ("BLACKLIST_SERVICES", "x  y");
     ("TELEGRAM_TOKEN", "T"); ("TELEGRAM_CHAT_ID", "C");
     ("NOTIFY_INCLUDE_NEW_IMAGE", "1"); ("PORT", "80"); ("SLEEP_TIME", "2h")].

Definition no_equals : gmap string string :=
  list_to_map [("FILTER_SERVICES", "label"); ("PORT", "x")].

Definition empty_token : gmap string string :=
  list_to_map [("TELEGRAM_TOKEN", ""); ("TELEGRAM_CHAT_ID", "C")].

Definition empty_sleep : gmap string string :=
  list_to_map [("SLEEP_TIME", "")].

(** A state in which [api] has been updated three times. *)
Definition counted : State Calls :=
  {| world := {| lists := 0; reloads := 0 |};
     metrics := {[ ("api", "id-api", "api") := 3%nat ]} |}.

Definition no_blacklist : Settings :=
  {| filters := []; blacklist := []; sleep_time := "5m";
     prometheus_port := 9308%Z;
     notify_include_new_image := false; notify_include_old_image := false |}.

Definition keywords : list (string * Value) :=
  [("Telegram_Token", VStr "T"); ("sleep_time", VStr "30"); ("colour", VStr "red")].

End Cases.

(** * Properties *)

(** ** Strings *)

Module PyStrFacts.
Import PyStr.

Lemma append_cons a s t : String a s ++ t = String a (s ++ t).
Proof. reflexivity. Qed.

Lemma append_nil t : "" ++ t = t.
Proof. reflexivity. Qed.

Lemma but_last_snoc s c : but_last (s ++ String c "") = s.
Proof.
  induction s as [|a s IH]; [reflexivity|].
  destruct s as [|b s]; [reflexivity|].
  change (String a (but_last (String b s ++ String c "")) = String a (String b s)).
  by rewrite IH.
Qed.

Lemma last_char_snoc s c : last_char (s ++ String c "") = Some c.
Proof.
  induction s as [|a s IH]; [reflexivity|].
  destruct s as [|b s]; [reflexivity|].
  change (last_char (String b s ++ String c "") = Some c).
  apply IH.
Qed.

Lemma any_app p s t : any p (s ++ t) = any p s || any p t.
Proof.
  induction s as [|a s IH]; [reflexivity|].
  rewrite append_cons. cbn [any]. by rewrite IH, orb_assoc.
Qed.

Lemma any_false_all p s : any p s = false <-> all (λ c, negb (p c)) s = true.
Proof.
  induction s as [|a s IH]; [done|]. cbn [any all].
  rewrite orb_false_iff, andb_true_iff, negb_true_iff. tauto.
Qed.

Lemma last_char_any p s c : last_char s = Some c → p c = true → any p s = true.
Proof.
  induction s as [|a s IH]; [done|]. cbn [last_char any].
  destruct s as [|b s].
  - intros [= ->] ->. done.
  - intros Hl Hp. rewrite (IH Hl Hp). apply orb_true_r.
Qed.

(** A digit is no letter, no white space, no sign and no underscore. *)
Lemma isdigit_class c :
  isdigit c = true →
  isalpha c = false ∧ isspace c = false ∧ Ascii.eqb c "-" = false
  ∧ Ascii.eqb c "+" = false ∧ Ascii.eqb c "_" = false.
Proof.
  unfold isdigit, isalpha, isspace, between. intros Hd.
  apply andb_true_iff in Hd as [Hlo Hhi].
  apply Nat.leb_le in Hlo, Hhi.
  repeat split.
  - apply orb_false_iff; split; apply andb_false_iff.
    + left. apply Nat.leb_gt. lia.
    + left. apply Nat.leb_gt. lia.
  - apply orb_false_iff; split; apply andb_false_iff.
    + right. apply Nat.leb_gt. lia.
    + right. apply Nat.leb_gt. lia.
  - destruct (Ascii.eqb_spec c "-") as [->|]; [vm_compute in Hlo; lia|done].
  - destruct (Ascii.eqb_spec c "+") as [->|]; [vm_compute in Hlo; lia|done].
  - destruct (Ascii.eqb_spec c "_") as [->|]; [vm_compute in Hhi; lia|done].
Qed.

Lemma all_isdigit_no_alpha s : all isdigit s = true → any isalpha s = false.
Proof.
  induction s as [|a s IH]; [done|]. cbn [all any].
  intros [Ha Hs]%andb_true_iff. rewrite (IH Hs).
  by destruct (isdigit_class a Ha) as (-> & _).
Qed.

Lemma int_digits_decimal acc s :
  all isdigit s = true → int_digits acc false s = Some (decimal acc s).
Proof.
  revert acc. induction s as [|a s IH]; intros acc; [done|].
  cbn [all int_digits decimal]. intros [Ha Hs]%andb_true_iff.
  unfold digit_val. rewrite Ha. by apply IH.
Qed.

(** [int] reads a non-empty string of digits as its decimal value. *)
Lemma int_decimal s :
  s ≠ "" → all isdigit s = true → int s = Some (decimal 0 s).
Proof.
  destruct s as [|a s]; [done|]. intros _. cbn [all].
  intros [Ha Hs]%andb_true_iff.
  destruct (isdigit_class a Ha) as (_ & Hsp & Hm & Hp & _).
  unfold int. cbn [lstrip]. rewrite Hsp, Hm, Hp.
  unfold digit_val. rewrite Ha.
  rewrite (int_digits_decimal _ _ Hs). cbn [fmap option_fmap option_map decimal].
  f_equal. rewrite Z.mul_0_r, Z.add_0_l. apply Z.mul_1_l.
Qed.

Lemma int_char_intro c :
  isdigit c = true ∨ isspace c = true ∨ Ascii.eqb c "-" = true
  ∨ Ascii.eqb c "+" = true ∨ Ascii.eqb c "_" = true →
  int_char c = true.
Proof.
  unfold int_char. intros [->|[->|[->|[->| ->]]]];
    by rewrite ?orb_true_r.
Qed.

Lemma all_cons p c s : p c = true → all p s = true → all p (String c s) = true.
Proof. cbn [all]. by intros -> ->. Qed.

Lemma all_isspace_int_char s : all isspace s = true → all int_char s = true.
Proof.
  induction s as [|a s IH]; [done|]. cbn [all].
  intros [Ha Hs]%andb_true_iff.
  apply andb_true_iff; split; [apply int_char_intro; tauto|by apply IH].
Qed.

Lemma int_digits_chars acc u s z :
  int_digits acc u s = Some z → all int_char s = true.
Proof.
  revert acc u. induction s as [|a s IH]; intros acc u; [done|].
  cbn [int_digits]. unfold digit_val.
  destruct (isdigit a) eqn:Hd.
  { intros Hz. apply all_cons; [apply int_char_intro; tauto|by eapply IH]. }
  destruct u; [done|].
  destruct (Ascii.eqb a "_") eqn:Hu.
  { intros Hz. apply all_cons; [apply int_char_intro; tauto|by eapply IH]. }
  destruct (isspace a) eqn:Hsp; [|done]. cbn [andb].
  destruct (all isspace s) eqn:Hall; [|done]. intros _.
  apply all_cons; [apply int_char_intro; tauto|by apply all_isspace_int_char].
Qed.

Lemma lstrip_chars s : all int_char (lstrip s) = true → all int_char s = true.
Proof.
  induction s as [|a s IH]; [done|]. cbn [lstrip].
  destruct (isspace a) eqn:Hsp; [|done].
  intros Hs. apply all_cons; [apply int_char_intro; tauto|by apply IH].
Qed.

Lemma int_unsigned_chars sg s z :
  match s with
  | String c r =>
      match digit_val c with
      | Some d => Z.mul sg <$> int_digits d false r
      | None => None
      end
  | EmptyString => None
  end = Some z → all int_char s = true.
Proof.
  destruct s as [|c r]; [done|]. unfold digit_val.
  destruct (isdigit c) eqn:Hd; [|done].
  destruct (int_digits _ false r) eqn:Hr; [|done]. intros _.
  apply all_cons; [apply int_char_intro; tauto|by eapply int_digits_chars].
Qed.

(** [int] raises on every string holding a character that is neither a
    digit, white space, a sign nor an underscore. *)
Lemma int_chars s z : int s = Some z → all int_char s = true.
Proof.
  unfold int. intros Hz. apply lstrip_chars.
  destruct (lstrip s) as [|c r]; [done|].
  destruct (Ascii.eqb c "-") eqn:Hm.
  { apply all_cons; [apply int_char_intro; tauto|by eapply int_unsigned_chars]. }
  destruct (Ascii.eqb c "+") eqn:Hp.
  { apply all_cons; [apply int_char_intro; tauto|by eapply int_unsigned_chars]. }
  by eapply int_unsigned_chars.
Qed.

Lemma partition_none sep s : partition sep s = None ↔ contains sep s = false.
Proof.
  unfold contains. induction s as [|a s IH]; [done|]. cbn [partition any].
  rewrite (Ascii.eqb_sym sep a).
  destruct (Ascii.eqb a sep); [done|]. cbn [orb].
  destruct (partition sep s) as [[l r]|]; [|tauto].
  split; [done|]. intros Hc. by apply IH in Hc.
Qed.

Lemma partition_some sep s l r :
  partition sep s = Some (l, r) → s = l ++ String sep r ∧ contains sep l = false.
Proof.
  unfold contains. revert l. induction s as [|a s IH]; intros l; [done|].
  cbn [partition]. destruct (Ascii.eqb_spec a sep) as [->|Hne].
  { by intros [= <- <-]. }
  destruct (partition sep s) as [[l' r']|]; [|done].
  intros [= <- <-]. destruct (IH l' eq_refl) as [-> Hl'].
  split; [done|]. cbn [any]. rewrite Hl'.
  by destruct (Ascii.eqb_spec sep a) as [->|].
Qed.

Lemma partition_app sep l r :
  contains sep l = false → partition sep (l ++ String sep r) = Some (l, r).
Proof.
  unfold contains. induction l as [|a l IH].
  { intros _. rewrite append_nil. cbn [partition]. by rewrite Ascii.eqb_refl. }
  cbn [any]. intros [Ha Hl]%orb_false_iff.
  rewrite append_cons. cbn [partition].
  rewrite (Ascii.eqb_sym a sep), Ha. by rewrite (IH Hl).
Qed.

End PyStrFacts.

Module PyTextFacts.
Import PyText.

Lemma split_cons sep s : ∃ field fields, split sep s = field :: fields.
Proof.
  induction s as [|c s (field & fields & IH)]; [by eexists _, _|].
  cbn [split]. destruct (Ascii.eqb c sep); [by eexists _, _|].
  rewrite IH. by eexists _, _.
Qed.

Lemma join_cons sep field field' fields :
  join sep (field :: field' :: fields)
  = (field ++ sep ++ join sep (field' :: fields))%string.
Proof. reflexivity. Qed.

(** Joining the fields of [s] with the separator gives [s] back. *)
Lemma join_split sep s : join (String sep "") (split sep s) = s.
Proof.
  induction s as [|c s IH]; [done|]. cbn [split].
  destruct (split_cons sep s) as (field & fields & Hs). rewrite Hs in IH |- *.
  destruct (Ascii.eqb_spec c sep) as [->|_].
  - rewrite join_cons, IH. reflexivity.
  - destruct fields as [|field' fields].
    + cbn [join] in IH |- *. by rewrite IH.
    + rewrite join_cons in IH |- *. rewrite PyStrFacts.append_cons. by rewrite IH.
Qed.

(** No field holds the separator. *)
Lemma split_fields sep s field :
  field ∈ split sep s → PyStr.contains sep field = false.
Proof.
  revert field. induction s as [|c s IH]; intros field.
  { intros ->%list_elem_of_singleton. done. }
  cbn [split]. destruct (Ascii.eqb_spec c sep) as [->|Hne].
  { intros [->|Hin]%elem_of_cons; [done|by apply IH]. }
  destruct (split_cons sep s) as (field0 & fields & Hs). rewrite Hs in IH |- *.
  intros [->|Hin]%elem_of_cons.
  - unfold PyStr.contains. cbn [PyStr.any].
    destruct (Ascii.eqb_spec sep c) as [->|_]; [done|].
    apply (IH field0), list_elem_of_here.
  - by apply IH, list_elem_of_further.
Qed.

(** There is one field more than separators in [s]. *)
Lemma split_length sep s :
  List.length (split sep s)
  = S (List.length (List.filter (Ascii.eqb sep) (list_ascii_of_string s))).
Proof.
  induction s as [|c s IH]; [done|]. cbn [split list_ascii_of_string List.filter].
  rewrite (Ascii.eqb_sym sep c). destruct (Ascii.eqb c sep).
  - cbn [List.length]. by rewrite IH.
  - destruct (split_cons sep s) as (field & fields & Hs).
    rewrite Hs in IH |- *. exact IH.
Qed.

Lemma lower_char_idemp c : lower_char (lower_char c) = lower_char c.
Proof. by destruct c as [[] [] [] [] [] [] [] []]. Qed.

(** [lower] changes nothing in a string it has produced. *)
Lemma lower_idemp s : lower (lower s) = lower s.
Proof.
  induction s as [|c s IH]; [done|]. cbn [lower]. by rewrite lower_char_idemp, IH.
Qed.

End PyTextFacts.

(** ** The image-reference parser *)

Example parts_pinned :
  __get_image_parts "repo/app@sha256:AAA" = ("repo/app", Some "sha256:AAA").
Proof. reflexivity. Qed.

Example parts_unpinned :
  __get_image_parts "repo/app:latest" = ("repo/app:latest", None).
Proof. reflexivity. Qed.

Example parts_second_at :
  __get_image_parts "repo/app@sha256:AAA@x" = ("repo/app", Some "sha256:AAA@x").
Proof. reflexivity. Qed.

(** C9: the parser splits at the first [@]: without an [@] the repository
    is the whole string and the digest is absent; otherwise the repository
    is what precedes the first [@] and the digest is everything after it.
    One of the two cases applies to every string, so the parser never
    fails. *)
Theorem get_image_parts_first_at (image_with_digest : string) :
  (PyStr.contains "@" image_with_digest = false
   ∧ __get_image_parts image_with_digest = (image_with_digest, None))
  ∨ (∃ repository digest,
       image_with_digest = repository ++ String "@" digest
       ∧ PyStr.contains "@" repository = false
       ∧ __get_image_parts image_with_digest = (repository, Some digest)).
Proof.
  unfold __get_image_parts, PyStr.split1.
  destruct (PyStr.partition "@" image_with_digest) as [[l r]|] eqn:Hp.
  - right. exists l, r.
    destruct (PyStrFacts.partition_some _ _ _ _ Hp) as [-> Hl]. done.
  - left. by apply PyStrFacts.partition_none in Hp.
Qed.

Lemma get_image_parts_compose (repository digest : string) :
  PyStr.contains "@" repository = false →
  __get_image_parts (repository ++ "@" ++ digest) = (repository, Some digest).
Proof.
  intros Hr. unfold __get_image_parts, PyStr.split1.
  change ("@" ++ digest) with (String "@" digest).
  by rewrite (PyStrFacts.partition_app _ _ _ Hr).
Qed.

Lemma get_image_parts_repository (image_with_digest : string) :
  PyStr.contains "@" (__get_image_parts image_with_digest).1 = false.
Proof.
  destruct (get_image_parts_first_at image_with_digest)
    as [[Hc ->]|(l & r & -> & Hc & ->)]; done.
Qed.

(** ** The sleep interval *)

Example init_sleep_default : init_sleep "5m" = inr (5%Z, minutes).
Proof. reflexivity. Qed.

Example init_sleep_signed : init_sleep "+1_0h" = inr (10%Z, hours).
Proof. reflexivity. Qed.

Example init_sleep_two_letters : init_sleep "5mm" = inl (NotUnderstood "5mm").
Proof. reflexivity. Qed.

Example init_sleep_empty : init_sleep "" = inl (InvalidLiteral "").
Proof. reflexivity. Qed.

Lemma init_sleep_bare (ds : string) :
  ds ≠ "" → PyStr.all PyStr.isdigit ds = true →
  init_sleep ds = inr (PyStr.decimal 0 ds, minutes).
Proof.
  intros Hne Hd. unfold init_sleep.
  rewrite (PyStrFacts.all_isdigit_no_alpha _ Hd).
  by rewrite (PyStrFacts.int_decimal _ Hne Hd).
Qed.

Lemma init_sleep_unit (ds : string) (u : ascii) (ty : sleep_type) :
  ds ≠ "" → PyStr.all PyStr.isdigit ds = true →
  PyStr.isalpha u = true → relation u = Some ty →
  init_sleep (ds ++ String u "") = inr (PyStr.decimal 0 ds, ty).
Proof.
  intros Hne Hd Hu Hrel. unfold init_sleep.
  rewrite PyStrFacts.any_app. cbn [PyStr.any]. rewrite Hu, orb_true_r.
  rewrite PyStrFacts.but_last_snoc, PyStrFacts.last_char_snoc.
  rewrite (PyStrFacts.int_decimal _ Hne Hd). cbn [mbind option_bind].
  by rewrite Hrel.
Qed.

Lemma init_sleep_other_letter (s : string) (c : ascii) :
  PyStr.last_char s = Some c → PyStr.isalpha c = true → relation c = None →
  ∃ e, init_sleep s = inl e.
Proof.
  intros Hl Ha Hrel. unfold init_sleep.
  rewrite (PyStrFacts.last_char_any _ _ _ Hl Ha), Hl. cbn [mbind option_bind].
  rewrite Hrel. destruct (PyStr.int _); eauto.
Qed.

Lemma relation_other (c : ascii) :
  c ≠ "s"%char → c ≠ "m"%char → c ≠ "h"%char → c ≠ "d"%char → c ≠ "w"%char →
  relation c = None.
Proof.
  intros Hs Hm Hh Hd Hw. unfold relation.
  destruct (Ascii.eqb_spec c "s"); [done|].
  destruct (Ascii.eqb_spec c "m"); [done|].
  destruct (Ascii.eqb_spec c "h"); [done|].
  destruct (Ascii.eqb_spec c "d"); [done|].
  by destruct (Ascii.eqb_spec c "w").
Qed.

Lemma int_char_no_letter c : PyStr.int_char c = true → PyStr.isalpha c = false.
Proof. by destruct c as [[] [] [] [] [] [] [] []]. Qed.

Lemma int_chars_no_letter s :
  PyStr.all PyStr.int_char s = true → PyStr.any PyStr.isalpha s = false.
Proof.
  induction s as [|c s IH]; [done|]. cbn [PyStr.all PyStr.any].
  intros [Hc Hs]%andb_true_iff. by rewrite (int_char_no_letter c Hc), (IH Hs).
Qed.

Lemma any_but_last p s :
  PyStr.any p s = false → PyStr.any p (PyStr.but_last s) = false.
Proof.
  induction s as [|c s IH]; [done|]. cbn [PyStr.any].
  intros [Hc Hs]%orb_false_iff. destruct s as [|c' s]; [done|].
  change (PyStr.but_last (String c (String c' s)))
    with (String c (PyStr.but_last (String c' s))).
  cbn [PyStr.any]. by rewrite Hc, (IH Hs).
Qed.

(** ** Integer literals *)

Section Literals.
Import PyStr.
Local Open Scope Z_scope.

Lemma append_assoc (a b c : string) : (a ++ b) ++ c = a ++ (b ++ c).
Proof.
  induction a as [|x a IH]; [done|].
  rewrite !PyStrFacts.append_cons. by rewrite IH.
Qed.

Lemma append_empty (a : string) : a ++ "" = a.
Proof. induction a as [|x a IH]; [done|]. by rewrite PyStrFacts.append_cons, IH. Qed.

Lemma snoc_but_last s c : last_char s = Some c → s = but_last s ++ String c "".
Proof.
  induction s as [|a s IH]; [done|]. destruct s as [|b s].
  { by intros [= ->]. }
  intros Hl. change (but_last (String a (String b s)))
    with (String a (but_last (String b s))).
  rewrite PyStrFacts.append_cons. f_equal. by apply IH.
Qed.

Lemma isspace_class c :
  isspace c = true →
  isdigit c = false ∧ isalpha c = false ∧ Ascii.eqb c "_" = false
  ∧ Ascii.eqb c "-" = false ∧ Ascii.eqb c "+" = false.
Proof. by destruct c as [[] [] [] [] [] [] [] []]. Qed.

Lemma decimal_app acc a b : decimal acc (a ++ b) = decimal (decimal acc a) b.
Proof.
  revert acc. induction a as [|x a IH]; intros acc; [done|].
  rewrite PyStrFacts.append_cons. cbn [decimal]. apply IH.
Qed.

Lemma join_later g groups :
  PyText.join "_" (g :: groups) = g ++ later_groups groups.
Proof.
  revert g. induction groups as [|g' groups IH]; intros g.
  { cbn [PyText.join later_groups]. by rewrite append_empty. }
  rewrite PyTextFacts.join_cons. cbn [later_groups]. by rewrite IH.
Qed.

Lemma int_digits_space acc r :
  all isspace r = true → int_digits acc false r = Some acc.
Proof.
  destruct r as [|c r]; [done|]. cbn [all int_digits].
  intros [Hc Hr]%andb_true_iff.
  destruct (isspace_class c Hc) as (Hd & _ & Hu & _).
  unfold digit_val. by rewrite Hd, Hu, Hc, Hr.
Qed.

Lemma int_digits_digit acc au c s :
  isdigit c = true →
  int_digits acc au (String c s)
  = int_digits (10 * acc + (Z.of_nat (nat_of_ascii c) - 48)) false s.
Proof. intros Hc. cbn [int_digits]. unfold digit_val. by rewrite Hc. Qed.

Lemma int_digits_digits acc g rest :
  all isdigit g = true →
  int_digits acc false (g ++ rest) = int_digits (decimal acc g) false rest.
Proof.
  revert acc. induction g as [|c g IH]; intros acc; [done|].
  cbn [all]. intros [Hc Hg]%andb_true_iff.
  rewrite PyStrFacts.append_cons, int_digits_digit by done.
  cbn [decimal]. by apply IH.
Qed.

Lemma int_digits_group acc g rest :
  g ≠ "" → all isdigit g = true →
  int_digits acc true (g ++ rest) = int_digits (decimal acc g) false rest.
Proof.
  destruct g as [|c g]; [done|]. intros _. cbn [all].
  intros [Hc Hg]%andb_true_iff.
  rewrite PyStrFacts.append_cons, int_digits_digit by done.
  cbn [decimal]. by apply int_digits_digits.
Qed.

Lemma int_digits_groups acc groups r :
  Forall (λ g, g ≠ "" ∧ all isdigit g = true) groups →
  all isspace r = true →
  int_digits acc false (later_groups groups ++ r)
  = Some (foldl decimal acc groups).
Proof.
  intros Hgroups Hr. revert acc.
  induction Hgroups as [|g groups [Hne Hg] _ IH]; intros acc.
  { by apply int_digits_space. }
  cbn [later_groups foldl].
  change (("_" ++ g ++ later_groups groups) ++ r)
    with (String "_" ((g ++ later_groups groups) ++ r)).
  cbn [int_digits].
  change (digit_val "_") with (@None Z). change (Ascii.eqb "_" "_") with true.
  cbn match. rewrite append_assoc, int_digits_group by done. apply IH.
Qed.

Lemma int_digits_inv s acc au v :
  int_digits acc au s = Some v →
  ∃ g groups r,
    s = g ++ later_groups groups ++ r
    ∧ all isdigit g = true ∧ (au = true → g ≠ "")
    ∧ Forall (λ g, g ≠ "" ∧ all isdigit g = true) groups
    ∧ all isspace r = true
    ∧ v = foldl decimal (decimal acc g) groups.
Proof.
  revert acc au. induction s as [|c s IH]; intros acc au.
  { cbn [int_digits]. destruct au; [done|]. intros [= <-].
    exists "", [], "". by repeat split. }
  cbn [int_digits]. unfold digit_val. destruct (isdigit c) eqn:Hc.
  { intros (g & groups & r & -> & Hg & _ & Hgroups & Hr & ->)%IH.
    exists (String c g), groups, r. cbn [all decimal]. rewrite Hc.
    by repeat split. }
  destruct au; [done|]. destruct (Ascii.eqb_spec c "_") as [->|Hu].
  { intros (g & groups & r & -> & Hg & Hne & Hgroups & Hr & ->)%IH.
    exists "", (g :: groups), r. cbn [later_groups foldl decimal].
    split.
    { rewrite PyStrFacts.append_nil.
      change (("_" ++ g ++ later_groups groups) ++ r)
        with (String "_" ((g ++ later_groups groups) ++ r)).
      by rewrite append_assoc. }
    split; [done|]. split; [done|]. split; [|done].
    apply Forall_cons; split; [|done].
    split; [by apply Hne|done]. }
  destruct (isspace c) eqn:Hsp; [|done]. cbn [andb].
  destruct (all isspace s) eqn:Hs; [|done]. intros [= <-].
  exists "", [], (String c s). cbn [all]. rewrite Hsp, Hs. by repeat split.
Qed.

Lemma lstrip_split s :
  ∃ l, s = l ++ lstrip s ∧ all isspace l = true.
Proof.
  induction s as [|c s (l & Hl & Hsp)]; [by exists ""|].
  cbn [lstrip]. destruct (isspace c) eqn:Hc; [|by exists ""].
  exists (String c l). rewrite PyStrFacts.append_cons, <- Hl. cbn [all].
  by rewrite Hc, Hsp.
Qed.

Lemma lstrip_app l s :
  all isspace l = true → lstrip (l ++ s) = lstrip s.
Proof.
  induction l as [|c l IH]; [done|]. cbn [all].
  intros [Hc Hl]%andb_true_iff. rewrite PyStrFacts.append_cons. cbn [lstrip].
  rewrite Hc. by apply IH.
Qed.

(** [int] reads the first group and the groups after it. *)
Lemma int_groups sg g groups r :
  g ≠ "" → all isdigit g = true →
  Forall (λ g, g ≠ "" ∧ all isdigit g = true) groups →
  all isspace r = true →
  match g ++ later_groups groups ++ r with
  | String c rest =>
      match digit_val c with
      | Some d => Z.mul sg <$> int_digits d false rest
      | None => None
      end
  | EmptyString => None
  end = Some (sg * foldl decimal (decimal 0 g) groups).
Proof.
  destruct g as [|c g]; [done|]. intros _. cbn [all].
  intros [Hc Hg]%andb_true_iff Hgroups Hr.
  rewrite PyStrFacts.append_cons. unfold digit_val. rewrite Hc.
  rewrite int_digits_digits, int_digits_groups by done.
  cbn [fmap option_fmap option_map decimal].
  by rewrite Z.mul_0_r, Z.add_0_l.
Qed.

(** [int] accepts the integer literals, and nothing else. *)
Lemma int_literal s z : int s = Some z ↔ integer_literal s z.
Proof.
  split.
  - unfold int. destruct (lstrip_split s) as (l & Hs & Hl).
    intros Hz.
    assert (Hcase : ∃ sign s2,
      lstrip s = sign ++ s2 ∧ (sign = "" ∨ sign = "+" ∨ sign = "-")
      ∧ match s2 with
        | String c r =>
            match digit_val c with
            | Some d =>
                Z.mul (if String.eqb sign "-" then -1 else 1)
                  <$> int_digits d false r
            | None => None
            end
        | EmptyString => None
        end = Some z).
    { destruct (lstrip s) as [|c r]; [done|].
      destruct (Ascii.eqb_spec c "-") as [->|Hm].
      { exists "-", r. split; [done|]. split; [tauto|done]. }
      destruct (Ascii.eqb_spec c "+") as [->|Hp].
      { exists "+", r. split; [done|]. split; [tauto|done]. }
      exists "", (String c r). split; [done|]. split; [tauto|done]. }
    destruct Hcase as (sign & s2 & Hstrip & Hsign & Hbody).
    destruct s2 as [|c r]; [done|]. unfold digit_val in Hbody.
    destruct (isdigit c) eqn:Hc; [|done].
    destruct (int_digits _ false r) as [v|] eqn:Hv; [|done].
    injection Hbody as <-.
    apply int_digits_inv in Hv
      as (g & groups & r' & -> & Hg & _ & Hgroups & Hr & ->).
    exists l, sign, (String c g :: groups), r'.
    split.
    { etrans; [exact Hs|]. rewrite Hstrip, join_later. do 2 f_equal.
      by rewrite append_assoc. }
    split; [done|]. split; [done|]. split; [done|]. split; [done|].
    split.
    + apply Forall_cons; split; [|done]. split; [done|]. cbn [all].
      by rewrite Hc.
    + cbn [foldl decimal]. by rewrite Z.mul_0_r, Z.add_0_l.
  - intros (l & sign & groups & r & -> & Hl & Hr & Hsign & Hne & Hgroups & ->).
    destruct groups as [|g groups]; [done|].
    apply Forall_cons in Hgroups as [[Hg Hd] Hgroups].
    rewrite join_later. unfold int. rewrite lstrip_app by done.
    rewrite append_assoc. cbn [foldl].
    destruct g as [|c g]; [done|]. cbn [all] in Hd.
    pose proof Hd as [Hc Hg']%andb_true_iff.
    destruct (PyStrFacts.isdigit_class c Hc) as (_ & Hsp & Hm & Hp & _).
    destruct Hsign as [->|[->| ->]].
    + rewrite PyStrFacts.append_nil, PyStrFacts.append_cons.
      cbn [lstrip]. rewrite Hsp, Hm, Hp.
      exact (int_groups 1 (String c g) groups r Hg Hd Hgroups Hr).
    + change ("+" ++ ?x) with (String "+" x). cbn [lstrip].
      change (isspace "+") with false. cbn match.
      change (Ascii.eqb "+" "-") with false. change (Ascii.eqb "+" "+") with true.
      cbn match. exact (int_groups 1 (String c g) groups r Hg Hd Hgroups Hr).
    + change ("-" ++ ?x) with (String "-" x). cbn [lstrip].
      change (isspace "-") with false. cbn match.
      change (Ascii.eqb "-" "-") with true.
      cbn match. exact (int_groups (-1) (String c g) groups r Hg Hd Hgroups Hr).
Qed.

End Literals.
Section Interval.
Local Open Scope list_scope.

Lemma relation_letter c ty : relation c = Some ty → PyStr.isalpha c = true.
Proof.
  unfold relation.
  destruct (Ascii.eqb_spec c "s") as [->|_]; [done|].
  destruct (Ascii.eqb_spec c "m") as [->|_]; [done|].
  destruct (Ascii.eqb_spec c "h") as [->|_]; [done|].
  destruct (Ascii.eqb_spec c "d") as [->|_]; [done|].
  by destruct (Ascii.eqb_spec c "w") as [->|_].
Qed.

Lemma relation_unit_letters c ty :
  relation c = Some ty ↔ (c, ty) ∈ unit_letters.
Proof.
  unfold unit_letters. rewrite !elem_of_cons, elem_of_nil. unfold relation.
  split.
  - destruct (Ascii.eqb_spec c "s") as [->|_]; [intros [= <-]; tauto|].
    destruct (Ascii.eqb_spec c "m") as [->|_]; [intros [= <-]; tauto|].
    destruct (Ascii.eqb_spec c "h") as [->|_]; [intros [= <-]; tauto|].
    destruct (Ascii.eqb_spec c "d") as [->|_]; [intros [= <-]; tauto|].
    destruct (Ascii.eqb_spec c "w") as [->|_]; [intros [= <-]; tauto|done].
  - intros [[= -> ->]|[[= -> ->]|[[= -> ->]|[[= -> ->]|[[= -> ->]|[]]]]]]; done.
Qed.

(** An integer, alone or in front of a unit letter, is accepted. *)
Lemma init_sleep_integer s n :
  PyStr.int s = Some n → init_sleep s = inr (n, minutes).
Proof.
  intros Hn. unfold init_sleep.
  rewrite (int_chars_no_letter s (PyStrFacts.int_chars s n Hn)).
  by rewrite Hn.
Qed.

Lemma init_sleep_integer_unit s n c ty :
  PyStr.int s = Some n → relation c = Some ty →
  init_sleep (s ++ String c "") = inr (n, ty).
Proof.
  intros Hn Hrel. unfold init_sleep.
  rewrite PyStrFacts.any_app. cbn [PyStr.any].
  rewrite (relation_letter c ty Hrel), orb_true_r.
  rewrite PyStrFacts.but_last_snoc, PyStrFacts.last_char_snoc, Hn.
  cbn [mbind option_bind]. by rewrite Hrel.
Qed.

(** What is accepted is an integer, alone or in front of a unit letter. *)
Lemma init_sleep_accepted s n ty :
  init_sleep s = inr (n, ty) →
  (PyStr.any PyStr.isalpha s = false ∧ PyStr.int s = Some n ∧ ty = minutes)
  ∨ (∃ c, PyStr.last_char s = Some c ∧ relation c = Some ty
          ∧ PyStr.int (PyStr.but_last s) = Some n).
Proof.
  unfold init_sleep. destruct (PyStr.any PyStr.isalpha s) eqn:Halpha.
  - destruct (PyStr.int (PyStr.but_last s)) as [z|]; [|done].
    destruct (PyStr.last_char s) as [c|]; [|done]. cbn [mbind option_bind].
    destruct (relation c) as [ty'|] eqn:Hrel; [|done]. intros [= <- <-].
    right. by exists c.
  - destruct (PyStr.int s) as [z|]; [|done]. intros [= <- <-]. by left.
Qed.

Lemma leading_portion_no_letter s :
  PyStr.any PyStr.isalpha s = false → leading_portion s = s.
Proof.
  intros Halpha. unfold leading_portion.
  destruct (PyStr.last_char s) as [c|] eqn:Hl; [|done].
  destruct (PyStr.isalpha c) eqn:Hc; [|done].
  by rewrite (PyStrFacts.last_char_any _ _ _ Hl Hc) in Halpha.
Qed.

Lemma leading_portion_unit s c ty :
  PyStr.last_char s = Some c → relation c = Some ty →
  leading_portion s = PyStr.but_last s.
Proof.
  intros Hl Hrel. unfold leading_portion.
  by rewrite Hl, (relation_letter c ty Hrel).
Qed.

End Interval.

(** C4: a non-empty string of digits is that many minutes; followed by
    [s], [m], [h], [d] or [w] it is that many seconds, minutes, hours, days
    or weeks, and so is every integer literal (strings of at most 4300
    characters, the default limit of [int()] on the digits it converts);
    [pause] turns the units into seconds as expected.  A string that ends
    with another letter, and an ASCII string whose leading portion is no
    integer literal (the empty one included), end [__init__] with a
    [ValueError]; an accepted ASCII string is an integer literal, alone for
    minutes or in front of one unit letter.  And when [__init__] raises,
    [main] ends with the error: there is no run, hence no event. *)
Theorem sleep_interval_parsing :
  (∀ ds, ds ≠ "" → PyStr.all PyStr.isdigit ds = true →
     (String.length ds ≤ 4300)%nat →
     init_sleep ds = inr (PyStr.decimal 0 ds, minutes)
     ∧ init_sleep (ds ++ "s") = inr (PyStr.decimal 0 ds, seconds)
     ∧ init_sleep (ds ++ "m") = inr (PyStr.decimal 0 ds, minutes)
     ∧ init_sleep (ds ++ "h") = inr (PyStr.decimal 0 ds, hours)
     ∧ init_sleep (ds ++ "d") = inr (PyStr.decimal 0 ds, days)
     ∧ init_sleep (ds ++ "w") = inr (PyStr.decimal 0 ds, weeks))
  ∧ (∀ s n, integer_literal s n → (String.length s ≤ 4300)%nat →
       init_sleep s = inr (n, minutes)
       ∧ ∀ c ty, (c, ty) ∈ unit_letters →
           init_sleep (s ++ String c "") = inr (n, ty))
  ∧ (∀ n, pause_seconds seconds n = n
          ∧ pause_seconds minutes n = (60 * n)%Z
          ∧ pause_seconds hours n = (3600 * n)%Z
          ∧ pause_seconds days n = (86400 * n)%Z
          ∧ pause_seconds weeks n = (604800 * n)%Z)
  ∧ (∀ s c, PyStr.last_char s = Some c → PyStr.isalpha c = true →
       c ≠ "s"%char → c ≠ "m"%char → c ≠ "h"%char → c ≠ "d"%char → c ≠ "w"%char →
       ∃ e, init_sleep s = inl e)
  ∧ (∀ s, PyStr.isascii s = true →
       (∀ n, ¬ integer_literal (leading_portion s) n) →
       ∃ e, init_sleep s = inl e)
  ∧ (∀ s n ty, PyStr.isascii s = true → init_sleep s = inr (n, ty) →
       (integer_literal s n ∧ ty = minutes)
       ∨ (∃ body c, s = body ++ String c "" ∧ integer_literal body n
                    ∧ (c, ty) ∈ unit_letters))
  ∧ (init_sleep "5m" = inr (5%Z, minutes) ∧ pause_seconds minutes 5 = 300%Z)
  ∧ (init_sleep "30" = inr (30%Z, minutes) ∧ pause_seconds minutes 30 = (30 * 60)%Z)
  ∧ (init_sleep "2h" = inr (2%Z, hours) ∧ pause_seconds hours 2 = 7200%Z)
  ∧ (init_sleep "3w" = inr (3%Z, weeks) ∧ pause_seconds weeks 3 = (3 * 7 * 24 * 3600)%Z)
  ∧ init_sleep "abc" = inl (NotUnderstood "abc")
  ∧ init_sleep "5x" = inl (NotUnderstood "5x")
  ∧ (∀ W (P : Platform W) (settings : Settings) cycles fuel (st : State W) e,
       init_sleep (sleep_time settings) = inl e →
       main settings cycles fuel st = inl e).
Proof.
  split; [|split; [|split; [|split; [|split; [|split]]]]].
  - intros ds Hne Hd _. split; [by apply init_sleep_bare|].
    repeat split; (apply init_sleep_unit; [done|done|reflexivity|reflexivity]).
  - intros s n Hn%int_literal _. split; [by apply init_sleep_integer|].
    intros c ty Hc%relation_unit_letters. by apply init_sleep_integer_unit.
  - intros n. unfold pause_seconds. repeat split; lia.
  - intros s c Hl Ha ? ? ? ? ?.
    eapply init_sleep_other_letter; [done..|]. by apply relation_other.
  - intros s _ Hlead. destruct (init_sleep s) as [e|[n ty]] eqn:Hs; [by exists e|].
    destruct (init_sleep_accepted s n ty Hs)
      as [(Halpha & Hn & _)|(c & Hl & Hrel & Hn)].
    + destruct (Hlead n). rewrite leading_portion_no_letter by done.
      by apply int_literal.
    + destruct (Hlead n). rewrite (leading_portion_unit s c ty) by done.
      by apply int_literal.
  - intros s n ty _ Hs.
    destruct (init_sleep_accepted s n ty Hs)
      as [(Halpha & Hn & ->)|(c & Hl & Hrel & Hn)].
    + left. split; [by apply int_literal|done].
    + right. exists (PyStr.but_last s), c.
      split; [by apply snoc_but_last|]. split; [by apply int_literal|].
      by apply relation_unit_letters.
  - repeat split; try reflexivity.
    intros W P settings cycles fuel st e He. unfold main. by rewrite He.
Qed.

Lemma sleep_interval_parsing_witness :
  init_sleep "45" = inr (45%Z, minutes)
  ∧ init_sleep "45d" = inr (45%Z, days)
  ∧ init_sleep " +1_0 h" = inr (10%Z, hours)
  ∧ (∃ e, init_sleep "5X" = inl e)
  ∧ (∃ e, init_sleep "1.5h" = inl e)
  ∧ (∃ e, init_sleep "" = inl e)
  ∧ (∃ e, init_sleep "m" = inl e)
  ∧ (∃ e, init_sleep "+h" = inl e)
  ∧ (∃ e, init_sleep "1__0m" = inl e)
  ∧ ((integer_literal "-7w" (-7)%Z ∧ weeks = minutes)
     ∨ ∃ body c, "-7w" = body ++ String c "" ∧ integer_literal body (-7)%Z
                 ∧ (c, weeks) ∈ unit_letters).
Proof.
  destruct sleep_interval_parsing as (Hok & Hint & _ & Hletter & Hlead & Honly & _).
  destruct (Hok "45") as (Hbare & _ & _ & _ & Hd & _);
    [done|reflexivity|vm_compute; lia|].
  assert (Hno : ∀ s, PyStr.int s = None → ∀ n, ¬ integer_literal s n).
  { intros s Hs n Hn%int_literal. by rewrite Hs in Hn. }
  split; [exact Hbare|]. split; [exact Hd|]. split.
  { destruct (Hint " +1_0 " 10%Z) as [_ Hunit].
    - by apply int_literal.
    - vm_compute; lia.
    - apply (Hunit "h"%char hours). by apply relation_unit_letters. }
  split; [apply (Hletter "5X" "X"%char); [reflexivity|reflexivity|done..]|].
  split; [apply (Hlead "1.5h"); [reflexivity|by apply Hno]|].
  split; [apply (Hlead ""); [reflexivity|by apply Hno]|].
  split; [apply (Hlead "m"); [reflexivity|by apply Hno]|].
  split; [apply (Hlead "+h"); [reflexivity|by apply Hno]|].
  split; [apply (Hlead "1__0m"); [reflexivity|by apply Hno]|].
  apply (Honly "-7w"); reflexivity.
Defined.

(** ** The blacklist filter *)

Section Blacklist.
Local Open Scope list_scope.
Local Open Scope nat_scope.
Implicit Types (services : list Service) (service : Service) (b : string).

Lemma filter_all (P : Service → Prop) `{!∀ x, Decision (P x)} services :
  Forall P services → filter P services = services.
Proof.
  induction 1 as [|x l Hx _ IH]; [done|].
  by rewrite filter_cons_True, IH.
Qed.

Lemma list_remove_length service services :
  List.length (list_remove service services) ≤ List.length services.
Proof.
  induction services as [|o rest IH]; [done|]. cbn [list_remove].
  destruct (String.eqb (svc_id o) (svc_id service)); cbn [List.length]; lia.
Qed.

(** The bound of [blacklist_pass] is never what stops the loop: once it
    covers the services from the iterator on, a larger one changes
    nothing, so the loop ended because the iterator ran off the list. *)
Lemma blacklist_loop_enough n m i b services :
  List.length services ≤ i + n → n ≤ m →
  blacklist_loop n i b services = blacklist_loop m i b services.
Proof.
  revert m i services. induction n as [|n IH]; intros m i services Hlen Hm.
  { cbn [blacklist_loop]. destruct m as [|m]; [done|]. cbn [blacklist_loop].
    by rewrite (proj2 (lookup_ge_None services i)) by lia. }
  destruct m as [|m]; [lia|]. cbn [blacklist_loop].
  destruct (services !! i) as [service|]; [|done].
  pose proof (list_remove_length service services).
  destruct (String.eqb (svc_name service) b); apply IH; lia.
Qed.

Example blacklist_pass_worker :
  blacklist_pass [Scenario.api; Scenario.worker; Scenario.web] "worker"
  = [Scenario.api; Scenario.web].
Proof. reflexivity. Qed.

(** With pairwise distinct ids, [remove] takes out the very element the
    iterator points at. *)
Lemma list_remove_lookup services i service :
  NoDup (svc_id <$> services) → services !! i = Some service →
  list_remove service services = take i services ++ drop (S i) services.
Proof.
  revert i. induction services as [|o rest IH]; intros i Hnd Hi; [done|].
  cbn [list_remove]. destruct i as [|j].
  - injection Hi as ->. by rewrite String.eqb_refl.
  - cbn in Hi. rewrite fmap_cons in Hnd. apply NoDup_cons in Hnd as [Ho Hnd].
    destruct (String.eqb_spec (svc_id o) (svc_id service)) as [Heq|_].
    + exfalso. apply Ho. rewrite Heq.
      apply list_elem_of_fmap_2. by eapply list_elem_of_lookup_2.
    + cbn [take drop app]. f_equal. by apply IH.
Qed.

(** Past the last service named [b] the loop changes nothing. *)
Lemma blacklist_loop_inert n i b services :
  (∀ j service, i ≤ j → services !! j = Some service → svc_name service ≠ b) →
  blacklist_loop n i b services = services.
Proof.
  revert i. induction n as [|n IH]; intros i Hrest; [done|].
  cbn [blacklist_loop]. destruct (services !! i) as [service|] eqn:Hi; [|done].
  destruct (String.eqb_spec (svc_name service) b) as [Hb|_].
  - by destruct (Hrest i service).
  - apply IH. intros j s' Hj. apply Hrest. lia.
Qed.

(** With pairwise distinct names and ids the loop keeps the services
    before the iterator and filters the ones from the iterator on. *)
Lemma blacklist_loop_filter n i b services :
  NoDup (svc_name <$> services) → NoDup (svc_id <$> services) →
  List.length services ≤ i + n →
  blacklist_loop n i b services =
  take i services ++ filter (λ s, svc_name s ≠ b) (drop i services).
Proof.
  intros Hnames Hids. revert i. induction n as [|n IH]; intros i Hlen.
  { cbn [blacklist_loop]. rewrite drop_ge, take_ge by lia.
    by rewrite filter_nil, app_nil_r. }
  cbn [blacklist_loop]. destruct (services !! i) as [service|] eqn:Hi.
  2:{ apply lookup_ge_None in Hi. rewrite drop_ge, take_ge by lia.
      by rewrite filter_nil, app_nil_r. }
  rewrite (drop_S _ _ _ Hi).
  assert (Hothers : ∀ j s, j ≠ i → services !! j = Some s →
                           svc_name s ≠ svc_name service).
  { intros j s Hj Hs Heq. apply Hj.
    apply (NoDup_lookup _ j i (svc_name service) Hnames).
    - by rewrite list_lookup_fmap, Hs, <- Heq.
    - by rewrite list_lookup_fmap, Hi. }
  destruct (String.eqb_spec (svc_name service) b) as [Hb|Hb].
  - rewrite (list_remove_lookup _ i) by done.
    rewrite filter_cons_False by (intros Hne; by apply Hne).
    rewrite (filter_all _ (drop (S i) services)).
    2:{ apply Forall_forall. intros s [j Hj]%list_elem_of_lookup.
        rewrite lookup_drop in Hj. rewrite <- Hb. eapply Hothers; [|done]. lia. }
    apply blacklist_loop_inert. intros j s Hj.
    assert (Hti : List.length (take i services) = i).
    { apply length_take_le. apply lookup_lt_Some in Hi. lia. }
    rewrite lookup_app_r by lia. rewrite Hti, lookup_drop.
    intros Hs. rewrite <- Hb. eapply Hothers; [|done]. lia.
  - rewrite IH by lia. rewrite (take_S_r _ _ _ Hi).
    rewrite filter_cons_True by done. by rewrite <- app_assoc.
Qed.

Lemma blacklist_pass_filter services b :
  NoDup (svc_name <$> services) → NoDup (svc_id <$> services) →
  blacklist_pass services b = filter (λ s, svc_name s ≠ b) services.
Proof.
  intros Hnames Hids. unfold blacklist_pass.
  by rewrite blacklist_loop_filter.
Qed.

Lemma filter_distinct {A} (f : Service → A) (P : Service → Prop)
    `{!∀ x, Decision (P x)} services :
  NoDup (f <$> services) → NoDup (f <$> filter P services).
Proof.
  intros Hnd. eapply sublist_NoDup; [done|].
  apply fmap_sublist, sublist_filter.
Qed.

(** The services [get_services] keeps of a listing with pairwise
    distinct names and ids: the ones whose name is in no blacklist
    entry, in the order of the listing. *)
Lemma blacklist_filter bl services :
  NoDup (svc_name <$> services) → NoDup (svc_id <$> services) →
  foldl blacklist_pass services bl = filter (λ s, svc_name s ∉ bl) services.
Proof.
  revert services. induction bl as [|b bl IH]; intros services Hnames Hids.
  { cbn [foldl]. symmetry. apply filter_all, Forall_forall.
    intros s _. apply not_elem_of_nil. }
  cbn [foldl]. rewrite blacklist_pass_filter by done.
  rewrite IH by by apply filter_distinct.
  rewrite list_filter_filter. apply list_filter_iff.
  intros s. rewrite not_elem_of_cons. tauto.
Qed.

End Blacklist.

(** ** Running the controller *)

Ltac unfold_monad :=
  unfold mbind, M_bind, mret, M_ret, bind, ret, emit, call, counter_inc,
    out_of_fuel, after.

Section Runs.
Context {W : Type} `{Platform W}.
Variable settings : Settings.
Local Open Scope list_scope.
Local Open Scope nat_scope.

Implicit Types (st : State W) (service last : Service)
  (services iter : list Service) (evs : list Event).

Lemma bind_run {A B} (m : M W A) (k : A → M W B) st :
  (m ≫= k) st =
  match m st with
  | Done a st' evs => after evs (k a st')
  | Waiting st' evs => Waiting st' evs
  end.
Proof. reflexivity. Qed.

Lemma events_after {A} evs (r : Res W A) : events (after evs r) = evs ++ events r.
Proof. by destruct r. Qed.

Lemma final_after {A} evs (r : Res W A) : final (after evs r) = final r.
Proof. by destruct r. Qed.

Lemma after_nil {A} (r : Res W A) : after [] r = r.
Proof. by destruct r. Qed.

Lemma after_after {A} evs evs' (r : Res W A) :
  after evs (after evs' r) = after (evs ++ evs') r.
Proof. destruct r; cbn [after]; by rewrite app_assoc. Qed.

(** The services [get_services] returns in world [w], and the world it
    leaves. *)
Lemma get_services_run st :
  get_services settings st =
  Done (foldl blacklist_pass (services_list (filters settings) (world st)).1
          (blacklist settings))
       {| world := (services_list (filters settings) (world st)).2;
          metrics := metrics st |}
       [EvServicesList (filters settings)].
Proof.
  unfold get_services. unfold_monad.
  by destruct (services_list (filters settings) (world st)).
Qed.

Lemma get_updated_image_run image image_sha st :
  __get_updated_image image image_sha st =
  Done match (get_registry_data image (world st)).1 with
       | Some digest =>
           if decide (image_sha = Some digest) then PyFalse
           else PyString (image ++ "@" ++ digest)%string
       | None => PyNone
       end
       {| world := (get_registry_data image (world st)).2; metrics := metrics st |}
       [EvRegistryData image (get_registry_data image (world st)).1].
Proof.
  unfold __get_updated_image. unfold_monad.
  destruct (get_registry_data image (world st)) as [[digest|] w]; cbn.
  - by case_decide.
  - done.
Qed.

Lemma update_image_run service image st :
  __update_image service image st =
  Done (service_update service image true (world st)).1
       {| world := (service_update service image true (world st)).2;
          metrics := metrics st |}
       [EvServiceUpdate service image true
          (service_update service image true (world st)).1].
Proof.
  unfold __update_image. unfold_monad.
  by destruct (service_update service image true (world st)).
Qed.

Lemma truthy_reference (image digest : string) :
  truthy (PyString (image ++ "@" ++ digest)%string) = true.
Proof.
  cbn [truthy]. destruct image; [done|]. by rewrite PyStrFacts.append_cons.
Qed.

(** The body of the reconciliation loop, case by case. *)
Lemma reconcile_service_run fuel service services st :
  reconcile_service settings fuel service services st =
  let image := (__get_image_parts (svc_image service)).1 in
  let image_sha := (__get_image_parts (svc_image service)).2 in
  let registry_data := (get_registry_data image (world st)).1 in
  let st1 := {| world := (get_registry_data image (world st)).2;
                metrics := metrics st |} in
  match registry_data with
  | None => Done services st1 [EvRegistryData image None]
  | Some digest =>
      if decide (image_sha = Some digest)
      then Done services st1 [EvRegistryData image (Some digest)]
      else
        let new_ref := (image ++ "@" ++ digest)%string in
        let st2 := {| world := (service_update service new_ref true (world st1)).2;
                      metrics := metrics st |} in
        if (service_update service new_ref true (world st1)).1 then
          after [EvRegistryData image (Some digest);
                 EvServiceUpdate service new_ref true true]
            match convergence_wait settings fuel service services st2 with
            | Done (last, services') st3 evs =>
                let k := labels_after service last in
                Done services'
                  {| world := world st3;
                     metrics := <[k := default 0 (metrics st3 !! k) + 1]> (metrics st3) |}
                  (evs ++ [EvCounterInc (svc_name service) (svc_id last)
                             (svc_short_id last) 1;
                           EvNotify (notification settings (svc_name service)
                                       (svc_image service) last)])
            | Waiting st3 evs => Waiting st3 evs
            end
        else Done services st2 [EvRegistryData image (Some digest);
                                EvServiceUpdate service new_ref true false]
  end.
Proof.
  unfold reconcile_service.
  destruct (__get_image_parts (svc_image service)) as [image image_sha].
  cbn [fst snd]. rewrite bind_run, get_updated_image_run.
  destruct (get_registry_data image (world st)) as [[digest|] w1];
    cbn [fst snd after]; [|done].
  case_decide; [done|].
  rewrite truthy_reference, bind_run, update_image_run. cbn [world metrics fst snd].
  destruct (service_update service _ true w1) as [[|] w2];
    cbn [fst snd after app]; [|done].
  rewrite bind_run.
  destruct (convergence_wait settings fuel service services _)
    as [[last services'] st3 evs|st3 evs]; [|done].
  unfold_monad. by cbn.
Qed.

Lemma reconcile_cons fuel service iter services st :
  reconcile settings fuel (service :: iter) services st =
  match reconcile_service settings fuel service services st with
  | Done services' st' evs => after evs (reconcile settings fuel iter services' st')
  | Waiting st' evs => Waiting st' evs
  end.
Proof. reflexivity. Qed.

(** One turn of the [while updating] loop. *)
Lemma convergence_wait_S fuel service services st :
  convergence_wait settings (S fuel) service services st =
  let st1 := {| world := (service_reload service (world st)).2;
                metrics := metrics st |} in
  match (service_reload service (world st)).1 with
  | Some service' =>
      if updating service'
      then after [EvServiceReload service true; EvPause 1]
             (convergence_wait settings fuel service' services st1)
      else Done (service', services) st1 [EvServiceReload service true]
  | None =>
      Done (service,
            foldl blacklist_pass (services_list (filters settings) (world st1)).1
              (blacklist settings))
        {| world := (services_list (filters settings) (world st1)).2;
           metrics := metrics st |}
        [EvServiceReload service false; EvServicesList (filters settings)]
  end.
Proof.
  cbn [convergence_wait]. rewrite bind_run. unfold call at 1.
  destruct (service_reload service (world st)) as [[service'|] w'];
    cbn [after app fst snd]; rewrite bind_run; unfold emit at 1;
    cbn [after app].
  - destruct (updating service'); [|done].
    rewrite bind_run. unfold emit at 1. cbn [after].
    by rewrite after_nil, after_after.
  - rewrite bind_run, get_services_run. done.
Qed.

(** A wait that ends after [n] polls returns once the fuel exceeds [n];
    it emits reloads, [n] pauses and, when the service is gone, the fresh
    listing, and it leaves the counters alone. *)
Lemma convergence_wait_ends w service n last vanished w' :
  wait_ends w service n last vanished w' →
  ∀ fuel services m, n < fuel →
  ∃ evs,
    convergence_wait settings fuel service services {| world := w; metrics := m |} =
    Done (last,
          if vanished
          then foldl blacklist_pass (services_list (filters settings) w').1
                 (blacklist settings)
          else services)
      {| world := if vanished then (services_list (filters settings) w').2 else w';
         metrics := m |} evs
    ∧ forallb is_wait_event evs = true
    ∧ count is_pause evs = n.
Proof.
  induction 1 as [w service service' w' Hreload Hup
                 |w service w' Hreload
                 |w service service' w' n last vanished w'' Hreload Hup _ IH];
    intros fuel services m Hfuel; (destruct fuel as [|fuel]; [lia|]);
    rewrite convergence_wait_S; cbn [world metrics]; rewrite Hreload;
    cbn [fst snd].
  - rewrite Hup. eexists. split; [reflexivity|]. done.
  - eexists. split; [reflexivity|]. done.
  - rewrite Hup.
    destruct (IH fuel services m) as (evs & -> & Hev & Hn); [lia|].
    cbn [after app]. eexists. split; [reflexivity|].
    cbn. split; [done|]. unfold count in Hn |- *. cbn. by rewrite Hn.
Qed.

(** Whatever the platform answers, the wait leaves the counters alone
    and emits nothing but reloads, pauses and listings. *)
Lemma convergence_wait_quiet fuel service services st :
  metrics (final (convergence_wait settings fuel service services st)) = metrics st
  ∧ forallb is_wait_event
      (events (convergence_wait settings fuel service services st)) = true.
Proof.
  revert service st. induction fuel as [|fuel IH]; intros service st; [done|].
  rewrite convergence_wait_S. cbn zeta.
  destruct (service_reload service (world st)).1 as [service'|]; [|done].
  destruct (updating service'); [|done].
  rewrite final_after, events_after.
  destruct (IH service' {| world := (service_reload service (world st)).2;
                           metrics := metrics st |}) as [-> Hev].
  split; [done|]. cbn. by rewrite Hev.
Qed.

(** *** The resolver and the loop body *)

Lemma converged_fleet fuel iter services st :
  (∀ service w, service ∈ iter →
     ∃ digest,
       (__get_image_parts (svc_image service)).2 = Some digest
       ∧ (get_registry_data (__get_image_parts (svc_image service)).1 w).1
         = Some digest) →
  ∃ w' evs,
    reconcile settings fuel iter services st =
    Done services {| world := w'; metrics := metrics st |} evs
    ∧ forallb is_registry_query evs = true.
Proof.
  revert st. induction iter as [|service iter IH]; intros st Hfleet.
  { exists (world st), []. by destruct st. }
  rewrite reconcile_cons, reconcile_service_run. cbn zeta.
  destruct (Hfleet service (world st)) as (digest & Hsha & ->);
    [apply list_elem_of_here|].
  rewrite decide_True by done.
  edestruct (IH {| world := (get_registry_data
                     (__get_image_parts (svc_image service)).1 (world st)).2;
                   metrics := metrics st |}) as (w' & evs & -> & Hev).
  { intros s w Hs. apply Hfleet. by apply list_elem_of_further. }
  cbn [after app metrics]. by eexists _, _.
Qed.

(** C5: when the digest pinned on a service is the one the registry
    returns for its repository, the resolver returns [False]: the loop
    body ends after the registry query, with no update call, no metric
    call, no notification and the counters as they were; and a pass over
    services that are all in this situation returns with the counters
    unchanged, having emitted registry queries only. *)
Theorem converged_service_untouched :
  (∀ fuel service services st digest,
     (__get_image_parts (svc_image service)).2 = Some digest →
     (get_registry_data (__get_image_parts (svc_image service)).1 (world st)).1
     = Some digest →
     let image := (__get_image_parts (svc_image service)).1 in
     let st' := {| world := (get_registry_data image (world st)).2;
                   metrics := metrics st |} in
     __get_updated_image image (Some digest) st
     = Done PyFalse st' [EvRegistryData image (Some digest)]
     ∧ truthy PyFalse = false
     ∧ reconcile_service settings fuel service services st
       = Done services st' [EvRegistryData image (Some digest)])
  ∧ (∀ fuel iter services st,
       (∀ service w, service ∈ iter →
          ∃ digest,
            (__get_image_parts (svc_image service)).2 = Some digest
            ∧ (get_registry_data (__get_image_parts (svc_image service)).1 w).1
              = Some digest) →
       ∃ w' evs,
         reconcile settings fuel iter services st =
         Done services {| world := w'; metrics := metrics st |} evs
         ∧ forallb is_registry_query evs = true).
Proof.
  split; [|apply converged_fleet].
  intros fuel service services st digest Hsha Hreg image st'.
  subst image st'.
  rewrite get_updated_image_run, reconcile_service_run. cbn zeta.
  rewrite Hreg, Hsha. by rewrite !decide_True.
Qed.

(** C7: when the platform refuses the update call, the loop body ends
    right after it: the events are the registry query and the failed
    update call, so there is no reload, no metric call and no
    notification, the counters are as before, and the pass goes on with
    the next service. *)
Theorem failed_update_isolated fuel service iter services st digest :
  let image := (__get_image_parts (svc_image service)).1 in
  let new_ref := (image ++ "@" ++ digest)%string in
  let w1 := (get_registry_data image (world st)).2 in
  (get_registry_data image (world st)).1 = Some digest →
  (__get_image_parts (svc_image service)).2 ≠ Some digest →
  (service_update service new_ref true w1).1 = false →
  let st' := {| world := (service_update service new_ref true w1).2;
                metrics := metrics st |} in
  let evs := [EvRegistryData image (Some digest);
              EvServiceUpdate service new_ref true false] in
  __update_image service new_ref {| world := w1; metrics := metrics st |}
  = Done false st' [EvServiceUpdate service new_ref true false]
  ∧ reconcile_service settings fuel service services st = Done services st' evs
  ∧ reconcile settings fuel (service :: iter) services st
    = after evs (reconcile settings fuel iter services st').
Proof.
  intros image new_ref w1 Hreg Hsha Hfail st' evs.
  assert (Hbody : reconcile_service settings fuel service services st
                  = Done services st' evs).
  { rewrite reconcile_service_run. cbn zeta. fold image. rewrite Hreg.
    rewrite decide_False by done. cbn [world]. fold w1 new_ref.
    by rewrite Hfail. }
  split; [|split; [done|]].
  - rewrite update_image_run. cbn [world metrics]. by rewrite Hfail.
  - by rewrite reconcile_cons, Hbody.
Qed.

(** C8: when the registry query fails, the resolver returns [None]
    (neither [False] nor a reference): the loop body ends after the
    query, with no update call, no metric call, no notification and the
    counters as before, and the pass goes on with the next service;
    nothing is remembered of the failure, so whenever the service is
    reconciled again the registry is queried again first. *)
Theorem registry_failure_skips fuel service iter services st :
  let image := (__get_image_parts (svc_image service)).1 in
  let image_sha := (__get_image_parts (svc_image service)).2 in
  (get_registry_data image (world st)).1 = None →
  let st' := {| world := (get_registry_data image (world st)).2;
                metrics := metrics st |} in
  __get_updated_image image image_sha st
  = Done PyNone st' [EvRegistryData image None]
  ∧ truthy PyNone = false
  ∧ reconcile_service settings fuel service services st
    = Done services st' [EvRegistryData image None]
  ∧ reconcile settings fuel (service :: iter) services st
    = after [EvRegistryData image None] (reconcile settings fuel iter services st')
  ∧ (∀ fuel2 services2 st2, ∃ evs,
       events (reconcile_service settings fuel2 service services2 st2)
       = EvRegistryData image (get_registry_data image (world st2)).1 :: evs).
Proof.
  intros image image_sha Hreg st'.
  assert (Hbody : reconcile_service settings fuel service services st
                  = Done services st' [EvRegistryData image None]).
  { rewrite reconcile_service_run. cbn zeta. fold image. by rewrite Hreg. }
  split; [|split; [done|split; [done|split]]].
  - rewrite get_updated_image_run. by rewrite Hreg.
  - by rewrite reconcile_cons, Hbody.
  - intros fuel2 services2 st2. rewrite reconcile_service_run. cbn zeta.
    fold image.
    destruct (get_registry_data image (world st2)).1 as [digest|];
      [|by eexists].
    case_decide; [by eexists|].
    destruct (service_update service _ true _).1; [|by eexists].
    rewrite events_after. by eexists.
Qed.

(** One successful update: when the update call succeeds and the wait sees
    [n] polls in state "updating" before the service converges or is
    gone, the loop body returns (the fuel exceeding [n]); the counter of
    the service is one more than before and no other counter changed;
    the events after the update call are those of the wait, which hold
    no metric call and no notification, then one increment by 1 and one
    notification. *)
Lemma successful_update_once fuel service services st digest n last vanished w3 :
  let image := (__get_image_parts (svc_image service)).1 in
  let new_ref := (image ++ "@" ++ digest)%string in
  let w1 := (get_registry_data image (world st)).2 in
  let k := labels_after service last in
  (get_registry_data image (world st)).1 = Some digest →
  (__get_image_parts (svc_image service)).2 ≠ Some digest →
  (service_update service new_ref true w1).1 = true →
  wait_ends (service_update service new_ref true w1).2 service n last vanished w3 →
  n < fuel →
  ∃ services' st' evs,
    reconcile_service settings fuel service services st =
    Done services' st'
      ([EvRegistryData image (Some digest);
        EvServiceUpdate service new_ref true true] ++ evs ++
       [EvCounterInc (svc_name service) (svc_id last) (svc_short_id last) 1;
        EvNotify (notification settings (svc_name service) (svc_image service) last)])
    ∧ metrics st' !! k = Some (default 0 (metrics st !! k) + 1)
    ∧ (∀ k', k' ≠ k → metrics st' !! k' = metrics st !! k')
    ∧ forallb is_wait_event evs = true
    ∧ count is_pause evs = n.
Proof.
  intros image new_ref w1 k Hreg Hsha Hok Hwait Hfuel.
  rewrite reconcile_service_run. cbn zeta. fold image. rewrite Hreg.
  rewrite decide_False by done. cbn [world]. fold w1 new_ref. rewrite Hok.
  destruct (convergence_wait_ends _ _ _ _ _ _ Hwait fuel services (metrics st) Hfuel)
    as (evs & -> & Hev & Hn).
  cbn [after app world metrics]. eexists _, _, evs. split; [reflexivity|].
  cbn [metrics]. fold k. split; [by rewrite lookup_insert_eq|].
  split; [|done]. intros k' Hk'. by rewrite lookup_insert_ne.
Qed.

(** The reference the resolver returns parses back to
    the repository it was asked about and the digest the registry
    returned. *)
Lemma resolver_reference_parses image_with_digest st new_ref st' evs :
  let image := (__get_image_parts image_with_digest).1 in
  let image_sha := (__get_image_parts image_with_digest).2 in
  __get_updated_image image image_sha st = Done (PyString new_ref) st' evs →
  ∃ digest,
    (get_registry_data image (world st)).1 = Some digest
    ∧ __get_image_parts new_ref = (image, Some digest).
Proof.
  intros image image_sha. rewrite get_updated_image_run.
  destruct (get_registry_data image (world st)).1 as [digest|]; [|done].
  case_decide; [done|]. intros [= <- _ _]. exists digest. split; [done|].
  apply get_image_parts_compose, get_image_parts_repository.
Qed.

(** *** Counting updates, increments and notifications *)

Lemma count_app p evs evs' : count p (evs ++ evs') = count p evs + count p evs'.
Proof. unfold count. by rewrite List.filter_app, length_app. Qed.

Lemma count_wait_events p evs :
  (∀ e, is_wait_event e = true → p e = false) →
  forallb is_wait_event evs = true → count p evs = 0.
Proof.
  intros Hp. induction evs as [|e evs IH]; [done|]. cbn [forallb].
  intros [He Hevs]%andb_true_iff. unfold count in *. cbn [List.filter].
  rewrite (Hp e He). by apply IH.
Qed.

Lemma wait_event_no_notify name e : is_wait_event e = true → is_notify name e = false.
Proof. by destruct e. Qed.

Lemma wait_event_no_increment name e :
  is_wait_event e = true → is_increment name e = false.
Proof. by destruct e. Qed.

Lemma wait_event_no_update name e : is_wait_event e = true → is_updated name e = false.
Proof. by destruct e. Qed.

Lemma reconcile_service_counts fuel service services st name :
  tallied name (reconcile_service settings fuel service services st).
Proof.
  unfold tallied. rewrite reconcile_service_run. cbn zeta.
  destruct (get_registry_data _ (world st)).1 as [digest|]; [|done].
  case_decide; [done|].
  destruct (service_update service _ true _).1; [|done].
  pose proof (convergence_wait_quiet fuel service services
    {| world := (service_update service
                   ((__get_image_parts (svc_image service)).1 ++ "@" ++ digest)%string
                   true
                   (get_registry_data (__get_image_parts (svc_image service)).1
                      (world st)).2).2;
       metrics := metrics st |}) as [_ Hev].
  destruct (convergence_wait settings fuel service services _)
    as [[last services'] st3 evs|st3 evs]; cbn [events after] in Hev |- *;
    rewrite !count_app;
    rewrite (count_wait_events (is_notify name) evs)
      by (done || apply wait_event_no_notify);
    rewrite ?(count_wait_events (is_increment name) evs)
      by (done || apply wait_event_no_increment);
    rewrite ?(count_wait_events (is_updated name) evs)
      by (done || apply wait_event_no_update);
    unfold count; cbn; destruct (String.eqb (svc_name service) name); cbn; lia.
Qed.

Lemma reconcile_counts fuel iter services st name :
  tallied name (reconcile settings fuel iter services st).
Proof.
  revert services st. induction iter as [|service iter IH]; intros services st.
  { unfold tallied. cbn. lia. }
  rewrite reconcile_cons.
  pose proof (reconcile_service_counts fuel service services st name) as Hstep.
  destruct (reconcile_service settings fuel service services st)
    as [services' st' evs|st' evs]; [|done].
  destruct Hstep as [Hni Hun]. cbn [events] in Hni.
  destruct (IH services' st') as [Hni' Hrest]. unfold tallied.
  rewrite events_after, !count_app. split; [lia|].
  destruct (reconcile settings fuel iter services' st') as [l st'' evs'|st'' evs'];
    cbn [after events] in Hni', Hrest |- *; rewrite !count_app; lia.
Qed.

(** One turn of the priming loop. *)
Lemma priming_cons service iter services st :
  priming settings (service :: iter) services st =
  let w := (service_present service (world st)).2 in
  let k := (svc_name service, svc_id service, svc_short_id service) in
  if (service_present service (world st)).1
  then after [EvCounterInc (svc_name service) (svc_id service)
                (svc_short_id service) 0]
         (priming settings iter services
            {| world := w;
               metrics := <[k := default 0 (metrics st !! k) + 0]> (metrics st) |})
  else after [EvNotFound service; EvServicesList (filters settings)]
         (priming settings iter
            (foldl blacklist_pass (services_list (filters settings) w).1
               (blacklist settings))
            {| world := (services_list (filters settings) w).2;
               metrics := metrics st |}).
Proof.
  cbn [priming]. rewrite bind_run. unfold call at 1.
  destruct (service_present service (world st)) as [[|] w];
    cbn [after app fst snd]; rewrite after_nil, bind_run.
  - unfold counter_inc at 1. by cbn [after app fst snd world metrics].
  - unfold emit at 1. cbn [after]. rewrite bind_run, get_services_run.
    cbn [after world metrics]. by rewrite after_after.
Qed.

(** The priming loop always returns, and emits priming events only. *)
Lemma priming_run iter services st :
  ∃ services' st' evs,
    priming settings iter services st = Done services' st' evs
    ∧ forallb is_priming_event evs = true.
Proof.
  revert services st. induction iter as [|service iter IH]; intros services st.
  { by eexists _, _, _. }
  rewrite priming_cons. cbn zeta.
  destruct (service_present service (world st)).1;
    edestruct IH as (l & st' & evs & -> & Hev); cbn [after app];
    eexists _, _, _; (split; [reflexivity|done]).
Qed.

Lemma priming_event_no_notify name e :
  is_priming_event e = true → is_notify name e = false.
Proof. by destruct e. Qed.

Lemma priming_event_no_increment name e :
  is_priming_event e = true → is_increment name e = false.
Proof. destruct e as [| |? ? ? [|?]| | | | | | |]; done. Qed.

Lemma priming_event_no_update name e :
  is_priming_event e = true → is_updated name e = false.
Proof. by destruct e. Qed.

Lemma count_priming_events p evs :
  (∀ e, is_priming_event e = true → p e = false) →
  forallb is_priming_event evs = true → count p evs = 0.
Proof.
  intros Hp. induction evs as [|e evs IH]; [done|]. cbn [forallb].
  intros [He Hevs]%andb_true_iff. unfold count in *. cbn [List.filter].
  rewrite (Hp e He). by apply IH.
Qed.

Lemma run_unfold fuel st :
  _run settings fuel st =
  match get_services settings st with
  | Done services st1 evs1 =>
      after evs1
        match priming settings services services st1 with
        | Done services' st2 evs2 =>
            after evs2
              match reconcile settings fuel services' services' st2 with
              | Done _ st3 evs3 => Done tt st3 (evs3 ++ [])
              | Waiting st3 evs3 => Waiting st3 evs3
              end
        | Waiting st2 evs2 => Waiting st2 evs2
        end
  | Waiting st1 evs1 => Waiting st1 evs1
  end.
Proof.
  unfold _run. rewrite bind_run.
  destruct (get_services settings st) as [services st1 evs1|]; [|done].
  rewrite bind_run.
  destruct (priming settings services services st1) as [l st2 evs2|]; [|done].
  rewrite bind_run. by destruct (reconcile settings fuel l l st2).
Qed.

Lemma run_counts fuel st name : tallied name (_run settings fuel st).
Proof.
  rewrite run_unfold, get_services_run.
  destruct (priming_run
              (foldl blacklist_pass (services_list (filters settings) (world st)).1
                 (blacklist settings))
              (foldl blacklist_pass (services_list (filters settings) (world st)).1
                 (blacklist settings))
              {| world := (services_list (filters settings) (world st)).2;
                 metrics := metrics st |}) as (l & st2 & evs2 & -> & Hev2).
  pose proof (reconcile_counts fuel l l st2 name) as [Hni Hrest].
  assert (Hn : count (is_notify name) evs2 = 0)
    by (apply count_priming_events; [apply priming_event_no_notify|done]).
  assert (Hi : count (is_increment name) evs2 = 0)
    by (apply count_priming_events; [apply priming_event_no_increment|done]).
  assert (Hu : count (is_updated name) evs2 = 0)
    by (apply count_priming_events; [apply priming_event_no_update|done]).
  assert (Hl : ∀ p, p (EvServicesList (filters settings)) = false →
                    count p [EvServicesList (filters settings)] = 0).
  { intros p Hp. unfold count. cbn. by rewrite Hp. }
  unfold tallied.
  destruct (reconcile settings fuel l l st2) as [l' st3 evs3|st3 evs3];
    cbn [after events] in Hni, Hrest |- *;
    rewrite ?app_nil_r, !count_app, Hn, Hi, Hu, !Hl by done; lia.
Qed.

(** *** Rebinding [services] inside the loops *)

Lemma forget_after {A} evs (r : Res W A) : forget (after evs r) = after evs (forget r).
Proof. by destruct r. Qed.

Lemma forget_done {A} (r : Res W A) st' evs :
  forget r = Done tt st' evs → ∃ a, r = Done a st' evs.
Proof. destruct r as [a ? ?|]; [|done]. intros [= -> ->]. by exists a. Qed.

(** What the wait does, and the service object it leaves, do not depend
    on the [services] variable. *)
Lemma convergence_wait_rebinding fuel service services1 services2 st :
  forget (convergence_wait settings fuel service services1 st)
  = forget (convergence_wait settings fuel service services2 st)
  ∧ ∀ last l1 st1 evs1,
      convergence_wait settings fuel service services1 st = Done (last, l1) st1 evs1 →
      ∃ l2, convergence_wait settings fuel service services2 st
            = Done (last, l2) st1 evs1.
Proof.
  revert service st. induction fuel as [|fuel IH]; intros service st; [done|].
  rewrite !convergence_wait_S. cbn zeta.
  destruct (service_reload service (world st)).1 as [service'|].
  2:{ split; [done|]. intros last l1 st1 evs1 [= <- _ <- <-]. by eexists. }
  destruct (updating service').
  2:{ split; [done|]. intros last l1 st1 evs1 [= <- _ <- <-]. by eexists. }
  match goal with |- context [convergence_wait settings fuel service' services1 ?s] =>
    destruct (IH service' s) as [Hforget Hdone] end.
  rewrite !forget_after, Hforget. split; [done|].
  intros last l1 st1 evs1.
  destruct (convergence_wait settings fuel service' services1 _)
    as [[last' l1'] st1' evs1'|]; [|done].
  destruct (Hdone _ _ _ _ eq_refl) as [l2 ->]. cbn [after].
  intros [= <- _ <- <-]. by eexists.
Qed.

Lemma reconcile_service_rebinding fuel service services1 services2 st :
  forget (reconcile_service settings fuel service services1 st)
  = forget (reconcile_service settings fuel service services2 st).
Proof.
  rewrite !reconcile_service_run. cbn zeta.
  destruct (get_registry_data _ (world st)).1 as [digest|]; [|done].
  case_decide; [done|].
  destruct (service_update service _ true _).1; [|done].
  rewrite !forget_after. f_equal.
  match goal with |- context [convergence_wait settings fuel service services1 ?s] =>
    destruct (convergence_wait_rebinding fuel service services1 services2 s)
      as [Hforget Hdone] end.
  destruct (convergence_wait settings fuel service services1 _)
    as [[last l1] st1 evs1|st1 evs1].
  - by destruct (Hdone _ _ _ _ eq_refl) as [l2 ->].
  - destruct (convergence_wait settings fuel service services2 _)
      as [[last l2] st2 evs2|st2 evs2]; [done|].
    by injection Hforget as -> ->.
Qed.

(** The reconciliation loop visits the list it was started on: the
    value of the [services] variable, which the handler of the wait
    rebinds, has no influence on what the loop does. *)
Lemma reconcile_rebinding fuel iter services1 services2 st :
  forget (reconcile settings fuel iter services1 st)
  = forget (reconcile settings fuel iter services2 st).
Proof.
  revert services1 services2 st.
  induction iter as [|service iter IH]; intros services1 services2 st; [done|].
  rewrite !reconcile_cons.
  pose proof (reconcile_service_rebinding fuel service services1 services2 st)
    as Hstep.
  destruct (reconcile_service settings fuel service services1 st)
    as [l1 st1 evs1|st1 evs1]; cbn [forget] in Hstep.
  - symmetry in Hstep. apply forget_done in Hstep as [l2 ->].
    rewrite !forget_after. f_equal. apply IH.
  - destruct (reconcile_service settings fuel service services2 st); [done|].
    by injection Hstep as -> ->.
Qed.

(** Likewise the priming loop goes on over the list it was started on,
    whatever the handler binds [services] to. *)
Lemma priming_rebinding iter services1 services2 st :
  forget (priming settings iter services1 st)
  = forget (priming settings iter services2 st).
Proof.
  revert services1 services2 st.
  induction iter as [|service iter IH]; intros services1 services2 st; [done|].
  rewrite !priming_cons. cbn zeta.
  destruct (service_present service (world st)).1; [|done].
  rewrite !forget_after. f_equal. apply IH.
Qed.

(** When no service is reported missing, priming leaves every counter
    as it was and creates at 0 the series of the services that had
    none. *)
Lemma priming_initialises iter services st :
  (∀ service w, (service_present service w).1 = true) →
  ∃ st' evs,
    priming settings iter services st = Done services st' evs
    ∧ (∀ k, default 0 (metrics st' !! k) = default 0 (metrics st !! k))
    ∧ (∀ k, is_Some (metrics st !! k) → is_Some (metrics st' !! k))
    ∧ (∀ service, service ∈ iter →
         is_Some (metrics st' !! (svc_name service, svc_id service,
                                  svc_short_id service))).
Proof.
  intros Hpresent. revert st.
  induction iter as [|service iter IH]; intros st.
  { eexists _, _. split; [reflexivity|]. split; [done|]. split; [done|].
    by intros service ?%elem_of_nil. }
  rewrite priming_cons, Hpresent. cbn zeta.
  match goal with |- context [priming settings iter services ?s] =>
    destruct (IH s) as (st' & evs & -> & Hval & Hkeep & Hiter) end.
  cbn [metrics] in Hval, Hkeep. cbn [after].
  eexists _, _. split; [reflexivity|].
  set (k0 := (svc_name service, svc_id service, svc_short_id service)) in *.
  assert (Hk0 : is_Some (metrics st' !! k0)).
  { apply Hkeep. rewrite lookup_insert_eq. by eexists. }
  split; [|split].
  - intros k. rewrite Hval. destruct (decide (k0 = k)) as [<-|Hne].
    + rewrite lookup_insert_eq. apply Nat.add_0_r.
    + by rewrite lookup_insert_ne.
  - intros k Hk. apply Hkeep. destruct (decide (k0 = k)) as [<-|Hne].
    + rewrite lookup_insert_eq. by eexists.
    + by rewrite lookup_insert_ne.
  - intros s [->|Hs]%elem_of_cons; [done|]. by apply Hiter.
Qed.

(** C6: when the update call for a service succeeds and the wait sees
    [n] polls in state "updating" before the service converges or is
    gone, the loop body returns (the fuel exceeding [n]); the counter of
    the service is one more than before and no other counter changed;
    the events after the update call are those of the wait, which hold
    [n] pauses, no metric call and no notification, then one increment
    by 1 and one notification.  And in the events of any cycle, for every
    service name, there are as many notifications as increments, and as
    many as successful update calls once the cycle has returned. *)
Theorem update_counted_once :
  (∀ fuel service services st digest n last vanished w3,
     let image := (__get_image_parts (svc_image service)).1 in
     let new_ref := (image ++ "@" ++ digest)%string in
     let w1 := (get_registry_data image (world st)).2 in
     let k := labels_after service last in
     (get_registry_data image (world st)).1 = Some digest →
     (__get_image_parts (svc_image service)).2 ≠ Some digest →
     (service_update service new_ref true w1).1 = true →
     wait_ends (service_update service new_ref true w1).2 service n last vanished w3 →
     n < fuel →
     ∃ services' st' evs,
       reconcile_service settings fuel service services st =
       Done services' st'
         ([EvRegistryData image (Some digest);
           EvServiceUpdate service new_ref true true] ++ evs ++
          [EvCounterInc (svc_name service) (svc_id last) (svc_short_id last) 1;
           EvNotify (notification settings (svc_name service)
                       (svc_image service) last)])
       ∧ metrics st' !! k = Some (default 0 (metrics st !! k) + 1)
       ∧ (∀ k', k' ≠ k → metrics st' !! k' = metrics st !! k')
       ∧ forallb is_wait_event evs = true
       ∧ count is_pause evs = n)
  ∧ (∀ fuel st name, tallied name (_run settings fuel st)).
Proof.
  split.
  - intros. by eapply successful_update_once.
  - intros. apply run_counts.
Qed.

(** C10: a repository without [@], an [@] and a digest parse back to
    that repository and that digest; and the reference the resolver
    returns parses back to the repository it was asked about and the
    digest the registry returned. *)
Theorem reference_roundtrip :
  (∀ repository digest : string,
     PyStr.contains "@" repository = false →
     __get_image_parts (repository ++ "@" ++ digest)%string
     = (repository, Some digest))
  ∧ (∀ image_with_digest st new_ref st' evs,
       let image := (__get_image_parts image_with_digest).1 in
       let image_sha := (__get_image_parts image_with_digest).2 in
       __get_updated_image image image_sha st = Done (PyString new_ref) st' evs →
       ∃ digest,
         (get_registry_data image (world st)).1 = Some digest
         ∧ new_ref = (image ++ "@" ++ digest)%string
         ∧ __get_image_parts new_ref = (image, Some digest)).
Proof.
  split; [apply get_image_parts_compose|].
  intros image_with_digest st new_ref st' evs image image_sha Hres.
  destruct (resolver_reference_parses _ _ _ _ _ Hres) as (digest & Hreg & Hparse).
  exists digest. split; [done|]. split; [|done].
  revert Hres. rewrite get_updated_image_run. subst image. rewrite Hreg.
  case_decide; [done|]. by intros [= <- _ _].
Qed.

End Runs.

(** ** Blacklisted services stay out of a run *)

Section Eligibility.
Context {W : Type} `{Platform W}.
Variable settings : Settings.
Hypothesis Hdistinct : distinct_listings.
Local Open Scope list_scope.
Local Open Scope nat_scope.

Implicit Types (st : State W) (service : Service)
  (services iter : list Service) (evs : list Event).

Local Abbreviation eligible := (eligible (blacklist settings)).

Lemma get_services_filter st :
  get_services settings st =
  Done (filter eligible (services_list (filters settings) (world st)).1)
    {| world := (services_list (filters settings) (world st)).2;
       metrics := metrics st |}
    [EvServicesList (filters settings)].
Proof.
  rewrite get_services_run.
  destruct (Hdistinct (filters settings) (world st)) as [Hnames Hids].
  by rewrite blacklist_filter.
Qed.

Lemma get_services_eligible st services st' evs :
  get_services settings st = Done services st' evs →
  Forall eligible services ∧ Forall (allowed (blacklist settings)) evs.
Proof.
  rewrite get_services_filter. intros [= <- _ <-]. split.
  - apply Forall_forall. intros s [Hs _]%list_elem_of_filter. exact Hs.
  - apply Forall_singleton. by intros name.
Qed.

Lemma allowed_wait_event e :
  is_wait_event e = true → allowed (blacklist settings) e.
Proof. destruct e; try done; by intros _ name. Qed.

Lemma priming_allowed iter services st :
  Forall eligible iter → Forall eligible services →
  ∃ services' st' evs,
    priming settings iter services st = Done services' st' evs
    ∧ Forall eligible services'
    ∧ Forall (allowed (blacklist settings)) evs.
Proof.
  intros Hiter. revert services st.
  induction Hiter as [|service iter Hservice _ IH]; intros services st Hservices.
  { eexists _, _, _. split; [reflexivity|]. split; [done|constructor]. }
  rewrite priming_cons. cbn zeta.
  destruct (service_present service (world st)).1.
  - edestruct (IH services) as (l & st' & evs & -> & Hl & Hevs); [done|].
    cbn [after]. eexists _, _, _. split; [reflexivity|]. split; [done|].
    apply Forall_app. split; [|done].
    apply Forall_singleton. by intros name [= <-].
  - destruct (Hdistinct (filters settings)
                (service_present service (world st)).2) as [Hnames Hids].
    rewrite blacklist_filter by done.
    edestruct IH as (l & st' & evs & -> & Hl & Hevs).
    { apply Forall_forall. intros s [Hs _]%list_elem_of_filter. exact Hs. }
    cbn [after]. eexists _, _, _. split; [reflexivity|]. split; [done|].
    apply Forall_app. split; [|done].
    repeat constructor; by intros name.
Qed.

Lemma reconcile_service_allowed fuel service services st :
  eligible service →
  Forall (allowed (blacklist settings))
    (events (reconcile_service settings fuel service services st)).
Proof.
  intros Hservice. rewrite reconcile_service_run. cbn zeta.
  assert (Hquery : ∀ r, allowed (blacklist settings)
                          (EvRegistryData (__get_image_parts (svc_image service)).1 r))
    by by intros r name.
  assert (Hcall : ∀ image ok, allowed (blacklist settings)
                                (EvServiceUpdate service image true ok))
    by by intros image ok name [= <-].
  destruct (get_registry_data _ (world st)).1 as [digest|];
    [|by repeat constructor].
  case_decide; [by repeat constructor|].
  destruct (service_update service _ true _).1; [|by repeat constructor].
  rewrite events_after. apply Forall_app. split; [by repeat constructor|].
  pose proof (convergence_wait_quiet settings fuel service services
    {| world := (service_update service
                   ((__get_image_parts (svc_image service)).1 ++ "@" ++ digest)%string
                   true
                   (get_registry_data (__get_image_parts (svc_image service)).1
                      (world st)).2).2;
       metrics := metrics st |}) as [_ Hev].
  assert (Hwait : ∀ evs, forallb is_wait_event evs = true →
                         Forall (allowed (blacklist settings)) evs).
  { intros evs Hevs. apply Forall_forall. intros e He.
    apply allowed_wait_event. rewrite forallb_forall in Hevs.
    by apply Hevs, list_elem_of_In. }
  destruct (convergence_wait settings fuel service services _)
    as [[last services'] st3 evs|st3 evs]; cbn [events] in Hev |- *.
  - apply Forall_app. split; [by apply Hwait|].
    repeat constructor; by intros name [= <-].
  - by apply Hwait.
Qed.

Lemma reconcile_allowed fuel iter services st :
  Forall eligible iter →
  Forall (allowed (blacklist settings))
    (events (reconcile settings fuel iter services st)).
Proof.
  intros Hiter. revert services st.
  induction Hiter as [|service iter Hservice _ IH]; intros services st.
  { constructor. }
  rewrite reconcile_cons.
  pose proof (reconcile_service_allowed fuel service services st Hservice) as Hstep.
  destruct (reconcile_service settings fuel service services st)
    as [services' st' evs|st' evs]; [|done].
  rewrite events_after. apply Forall_app. split; [done|apply IH].
Qed.

Lemma run_allowed fuel st :
  Forall (allowed (blacklist settings)) (events (_run settings fuel st)).
Proof.
  rewrite run_unfold.
  destruct (get_services settings st) as [services st1 evs1|st1 evs1] eqn:Hget.
  2:{ by rewrite get_services_filter in Hget. }
  destruct (get_services_eligible _ _ _ _ Hget) as [Hservices Hevs1].
  rewrite events_after. apply Forall_app. split; [done|].
  destruct (priming_allowed services services st1 Hservices Hservices)
    as (l & st2 & evs2 & -> & Hl & Hevs2).
  rewrite events_after. apply Forall_app. split; [done|].
  pose proof (reconcile_allowed fuel l l st2 Hl) as Hevs3.
  destruct (reconcile settings fuel l l st2) as [l' st3 evs3|st3 evs3];
    cbn [events] in Hevs3 |- *; [by rewrite app_nil_r|done].
Qed.

Lemma run_loop_allowed cycles fuel sleep ty st :
  Forall (allowed (blacklist settings))
    (events (run_loop settings cycles fuel sleep ty st)).
Proof.
  revert st. induction cycles as [|cycles IH]; intros st; [constructor|].
  cbn [run_loop]. rewrite bind_run. unfold emit at 1. cbn [after].
  rewrite events_after. apply Forall_app. split.
  { repeat constructor; by intros name. }
  rewrite bind_run. pose proof (run_allowed fuel st) as Hcycle.
  destruct (_run settings fuel st) as [[] st1 evs1|st1 evs1];
    cbn [events] in Hcycle |- *; [|done].
  rewrite events_after. apply Forall_app. split; [done|].
  rewrite bind_run. unfold emit at 1. cbn [after].
  rewrite events_after. apply Forall_app. split.
  { repeat constructor; by intros name. }
  rewrite bind_run. unfold emit at 1. cbn [after].
  rewrite events_after. apply Forall_app. split; [|apply IH].
  repeat constructor; by intros name.
Qed.

(** C3: on a platform whose listings hold pairwise distinct names and
    ids, [get_services] returns the listing without the services whose
    name equals a blacklist entry, in the order of the listing; and
    through all the cycles of [run] no update call, no metric call and
    no notification is about a service named in the blacklist, whatever
    the digests are. *)
Theorem blacklisted_never_touched :
  (∀ st, get_services settings st =
         Done (filter (λ s, svc_name s ∉ blacklist settings)
                 (services_list (filters settings) (world st)).1)
           {| world := (services_list (filters settings) (world st)).2;
              metrics := metrics st |}
           [EvServicesList (filters settings)])
  ∧ (∀ fuel st e name,
       e ∈ events (_run settings fuel st) →
       event_service e = Some name → name ∉ blacklist settings)
  ∧ (∀ cycles fuel sleep ty st e name,
       e ∈ events (run settings cycles fuel sleep ty st) →
       event_service e = Some name → name ∉ blacklist settings).
Proof.
  split; [apply get_services_filter|]. split.
  - intros fuel st e name He.
    pose proof (run_allowed fuel st) as Hall.
    rewrite Forall_forall in Hall. by apply Hall.
  - intros cycles fuel sleep ty st e name. unfold run.
    rewrite bind_run. unfold emit at 1. cbn [after].
    rewrite events_after. intros [He|He]%elem_of_app.
    + apply list_elem_of_singleton in He as ->. done.
    + pose proof (run_loop_allowed cycles fuel sleep ty st) as Hall.
      rewrite Forall_forall in Hall. by apply Hall.
Qed.

End Eligibility.


(** ** Runs on the scripted platform *)

Import Scenario.

(** C1: [api] and [web] are listed and stale; the update of [api] succeeds
    and its first reload finds it gone; the listing made then holds [db]
    alone.  [api] is counted and notified and the listing is made again,
    but the pass goes on with [web], the rest of the list it started on,
    and never reaches [db]: in general the list [services] is rebound to
    has no influence on the reconciliation loop. *)
Theorem vanished_service_stale_list :
  events (_run (H := scripted vanishing) settings 5 start) =
  [EvServicesList [];
   EvCounterInc "api" "id-api" "api" 0;
   EvCounterInc "web" "id-web" "web" 0;
   EvRegistryData "repo/api" (Some "sha256:BBB");
   EvServiceUpdate api "repo/api@sha256:BBB" true true;
   EvServiceReload api false;
   EvServicesList [];
   EvCounterInc "api" "id-api" "api" 1;
   EvNotify {| service_name := "api"; service_short_id := "api";
               old_image := Some "repo/api@sha256:AAA";
               new_image := Some "repo/api@sha256:AAA" |};
   EvRegistryData "repo/web" (Some "sha256:BBB");
   EvServiceUpdate web "repo/web@sha256:BBB" true true;
   EvServiceReload web true;
   EvCounterInc "web" "id-web" "web" 1;
   EvNotify {| service_name := "web"; service_short_id := "web";
               old_image := Some "repo/web@sha256:AAA";
               new_image := Some "repo/web@sha256:BBB" |}]
  ∧ get_services (H := scripted vanishing) settings
      {| world := {| lists := 1; reloads := 1 |}; metrics := ∅ |}
    = Done [db] {| world := {| lists := 2; reloads := 1 |}; metrics := ∅ |}
        [EvServicesList []]
  ∧ (∀ W (P : Platform W) settings fuel iter services1 services2 (st : State W),
       forget (reconcile settings fuel iter services1 st)
       = forget (reconcile settings fuel iter services2 st)).
Proof.
  split; [by vm_compute|]. split; [by vm_compute|].
  intros. apply reconcile_rebinding.
Qed.

Lemma steady_distinct : distinct_listings (H := scripted steady).
Proof.
  intros f w. split; apply (bool_decide_unpack _); by vm_compute.
Defined.

Lemma blacklisted_never_touched_witness :
  get_services (H := scripted steady) settings start
  = Done [api; web] {| world := {| lists := 1; reloads := 0 |}; metrics := ∅ |}
      [EvServicesList []]
  ∧ ∀ e : Event,
      e ∈ events (run (H := scripted steady) settings 2 5 5 minutes start) →
      event_service e ≠ Some "worker".
Proof.
  destruct (blacklisted_never_touched (H := scripted steady) settings steady_distinct)
    as (Hget & _ & Hrun).
  split.
  - rewrite (Hget start). reflexivity.
  - intros e He Hname.
    apply (Hrun 2%nat 5%nat 5%Z minutes start e "worker" He Hname).
    apply list_elem_of_here.
Defined.

Lemma converged_service_untouched_witness :
  reconcile_service (H := scripted missing) settings 0 api [api; web] start
  = Done [api; web] start [EvRegistryData "repo/api" (Some "sha256:AAA")]
  ∧ ∃ w' evs,
      reconcile (H := scripted missing) settings 0 [api; web] [api; web] start
      = Done [api; web] {| world := w'; metrics := ∅ |} evs
      ∧ forallb is_registry_query evs = true.
Proof.
  destruct (converged_service_untouched (H := scripted missing) settings)
    as [Hone Hall].
  split.
  - destruct (Hone 0%nat api [api; web] start "sha256:AAA") as (_ & _ & Hbody);
      [reflexivity|reflexivity|]. exact Hbody.
  - apply (Hall 0%nat [api; web] [api; web] start).
    intros service w Hin. exists "sha256:AAA".
    apply elem_of_cons in Hin as [->|Hin]; [split; reflexivity|].
    apply elem_of_cons in Hin as [->|Hin]; [split; reflexivity|].
    by apply elem_of_nil in Hin.
Defined.

Lemma failed_update_isolated_witness :
  reconcile_service (H := scripted (failing (Some "sha256:BBB"))) settings 5 api
    [api; web] start
  = Done [api; web] start
      [EvRegistryData "repo/api" (Some "sha256:BBB");
       EvServiceUpdate api "repo/api@sha256:BBB" true false].
Proof.
  destruct (failed_update_isolated (H := scripted (failing (Some "sha256:BBB")))
              settings 5 api [web] [api; web] start "sha256:BBB")
    as (_ & Hbody & _); [reflexivity|discriminate|reflexivity|].
  exact Hbody.
Defined.

Lemma registry_failure_skips_witness :
  reconcile_service (H := scripted (failing None)) settings 5 api [api; web] start
  = Done [api; web] start [EvRegistryData "repo/api" None].
Proof.
  destruct (registry_failure_skips (H := scripted (failing None))
              settings 5 api [web] [api; web] start)
    as (_ & _ & Hbody & _); [reflexivity|].
  exact Hbody.
Defined.

Lemma update_counted_once_witness :
  ∃ services' st' evs,
    reconcile_service (H := scripted steady) settings 5 api [api; web] start
    = Done services' st'
        ([EvRegistryData "repo/api" (Some "sha256:BBB");
          EvServiceUpdate api "repo/api@sha256:BBB" true true] ++ evs ++
         [EvCounterInc "api" "id-api" "api" 1;
          EvNotify {| service_name := "api"; service_short_id := "api";
                      old_image := Some "repo/api@sha256:AAA";
                      new_image := Some "repo/api@sha256:BBB" |}])
    ∧ metrics st' !! ("api", "id-api", "api") = Some 1%nat
    ∧ count is_pause evs = 2%nat.
Proof.
  destruct (update_counted_once (H := scripted steady) settings) as [Hone _].
  destruct (Hone 5%nat api [api; web] start "sha256:BBB" 2%nat
              (rolled_out (rolling (rolling api))) false
              {| lists := 0; reloads := 3 |})
    as (services' & st' & evs & Hbody & Hk & _ & _ & Hn).
  - reflexivity.
  - discriminate.
  - reflexivity.
  - eapply wait_updating; [reflexivity|reflexivity|].
    eapply wait_updating; [reflexivity|reflexivity|].
    eapply wait_converged; reflexivity.
  - lia.
  - exists services', st', evs. split; [exact Hbody|]. split; [exact Hk|exact Hn].
Defined.

Lemma reference_roundtrip_witness :
  __get_image_parts "repo/app@sha256:BBB" = ("repo/app", Some "sha256:BBB")
  ∧ ∃ digest,
      script_digest steady "repo/api" = Some digest
      ∧ __get_image_parts "repo/api@sha256:BBB" = ("repo/api", Some digest).
Proof.
  destruct (reference_roundtrip (H := scripted steady)) as [Hcompose Hresolve].
  split.
  - apply (Hcompose "repo/app" "sha256:BBB"). reflexivity.
  - destruct (Hresolve "repo/api@sha256:AAA" start "repo/api@sha256:BBB" start
                [EvRegistryData "repo/api" (Some "sha256:BBB")])
      as (digest & Hreg & _ & Hparse); [reflexivity|].
    exists digest. split; [exact Hreg|exact Hparse].
Defined.

(** Without distinct names the loop of [get_services] skips the service
    that follows a removed one: of two services listed under a blacklisted
    name the second is kept, and updated. *)
Remark same_name_twice :
  get_services (H := scripted twins) settings start
  = Done [{| svc_id := "id-other"; svc_short_id := "other"; svc_name := "worker";
             svc_image := "repo/worker"; svc_update_state := None |}]
      {| world := {| lists := 1; reloads := 0 |}; metrics := ∅ |}
      [EvServicesList []]
  ∧ ¬ distinct_listings (H := scripted twins).
Proof.
  split; [by vm_compute|].
  intros Hd. destruct (Hd [] {| lists := 0; reloads := 0 |}) as [Hnames _].
  cbn in Hnames. apply NoDup_cons in Hnames as [Hin _].
  apply Hin, list_elem_of_here.
Qed.

(** ** What a cycle emits *)

Section CycleEvents.
Context {W : Type} `{Platform W}.
Variable settings : Settings.
Local Open Scope list_scope.
Local Open Scope nat_scope.

Implicit Types (st : State W) (service last : Service)
  (services iter : list Service) (evs : list Event).

Lemma convergence_wait_cycle_events fuel service services st :
  Forall (cycle_event settings)
    (events (convergence_wait settings fuel service services st)).
Proof.
  revert service st. induction fuel as [|fuel IH]; intros service st.
  { constructor. }
  rewrite convergence_wait_S. cbn zeta.
  destruct (service_reload service (world st)).1 as [service'|].
  - destruct (updating service').
    + rewrite events_after. apply Forall_app. split; [|apply IH].
      repeat constructor.
    + repeat constructor.
  - repeat constructor.
Qed.

Lemma priming_cycle_events iter services st :
  Forall (cycle_event settings) (events (priming settings iter services st)).
Proof.
  revert services st. induction iter as [|service iter IH]; intros services st.
  { constructor. }
  rewrite priming_cons. cbn zeta.
  destruct (service_present service (world st)).1;
    rewrite events_after; (apply Forall_app; split; [|apply IH]);
    repeat constructor.
Qed.

Lemma reconcile_service_cycle_events fuel service services st :
  Forall (cycle_event settings)
    (events (reconcile_service settings fuel service services st)).
Proof.
  rewrite reconcile_service_run. cbn zeta.
  pose proof (cycle_query settings service) as Hquery.
  unfold svc_repository in Hquery.
  destruct (get_registry_data _ (world st)).1 as [digest|];
    [|by repeat constructor].
  case_decide as Hpinned; [by repeat constructor|].
  pose proof (cycle_update settings service digest) as Hupdate.
  unfold svc_repository, svc_pinned in Hupdate.
  destruct (service_update service _ true _).1;
    [|repeat constructor; auto].
  rewrite events_after. apply Forall_app. split; [repeat constructor; auto|].
  match goal with |- context [convergence_wait settings fuel service services ?s] =>
    pose proof (convergence_wait_cycle_events fuel service services s) as Hwait end.
  destruct (convergence_wait settings fuel service services _)
    as [[last services'] st3 evs|st3 evs]; cbn [events] in Hwait |- *; [|done].
  apply Forall_app. split; [done|]. repeat constructor.
Qed.

Lemma reconcile_cycle_events fuel iter services st :
  Forall (cycle_event settings) (events (reconcile settings fuel iter services st)).
Proof.
  revert services st. induction iter as [|service iter IH]; intros services st.
  { constructor. }
  rewrite reconcile_cons.
  pose proof (reconcile_service_cycle_events fuel service services st) as Hstep.
  destruct (reconcile_service settings fuel service services st)
    as [services' st' evs|st' evs]; [|done].
  rewrite events_after. apply Forall_app. split; [done|apply IH].
Qed.

(** Every event of a cycle is one of those [cycle_event] lists. *)
Lemma run_cycle_events fuel st :
  Forall (cycle_event settings) (events (_run settings fuel st)).
Proof.
  rewrite run_unfold, get_services_run, events_after.
  apply Forall_app. split; [repeat constructor|].
  match goal with |- context [priming settings ?l ?l ?s] =>
    pose proof (priming_cycle_events l l s) as Hprime;
    destruct (priming settings l l s) as [l' st2 evs2|st2 evs2] end;
    cbn [events] in Hprime; [|done].
  rewrite events_after. apply Forall_app. split; [done|].
  pose proof (reconcile_cycle_events fuel l' l' st2) as Hrec.
  destruct (reconcile settings fuel l' l' st2) as [l'' st3 evs3|st3 evs3];
    cbn [events] in Hrec |- *; [by rewrite app_nil_r|done].
Qed.

(** Every update call of a cycle forces the update and asks for the
    repository of the service at a digest other than the pinned one; the
    reference parses back to that repository and that digest. *)
Theorem update_calls_forced fuel st service image force ok :
  EvServiceUpdate service image force ok ∈ events (_run settings fuel st) →
  force = true
  ∧ ∃ digest,
      image = (svc_repository service ++ "@" ++ digest)%string
      ∧ svc_pinned service ≠ Some digest
      ∧ __get_image_parts image = (svc_repository service, Some digest).
Proof.
  intros Hin. pose proof (run_cycle_events fuel st) as Hall.
  rewrite Forall_forall in Hall. specialize (Hall _ Hin).
  inversion Hall as [| | | |s digest ok' Hpinned| | | |]; subst.
  split; [done|]. exists digest. split; [done|]. split; [done|].
  apply get_image_parts_compose, get_image_parts_repository.
Qed.

End CycleEvents.

(** ** The counters and the metric calls *)

Section Counters.
Context {W : Type} `{Platform W}.
Variable settings : Settings.
Local Open Scope list_scope.
Local Open Scope nat_scope.

Implicit Types (st : State W) (service last : Service)
  (services iter : list Service) (evs : list Event) (k : Labels).

Lemma increments_app k evs evs' :
  increments k (evs ++ evs') = increments k evs + increments k evs'.
Proof. unfold increments. by rewrite omap_app, sum_list_with_app. Qed.

Lemma accounted_ret {A} (a : A) : accounted (mret a : M W A).
Proof. intros st k. cbn. split; [lia|done]. Qed.

Lemma accounted_out_of_fuel {A} : accounted (out_of_fuel : M W A).
Proof. intros st k. cbn. split; [lia|done]. Qed.

Lemma accounted_bind {A B} (m : M W A) (f : A → M W B) :
  accounted m → (∀ a, accounted (f a)) → accounted (m ≫= f).
Proof.
  intros Hm Hf st k. rewrite bind_run. destruct (Hm st k) as [Hval Hkeep].
  destruct (m st) as [a st' evs|st' evs]; cbn [final events] in Hval, Hkeep;
    [|done].
  destruct (Hf a st' k) as [Hval' Hkeep'].
  rewrite final_after, events_after, increments_app. split; [lia|auto].
Qed.

Lemma accounted_call {A} (f : W → A * W) : accounted (call f).
Proof.
  intros st k. unfold call. destruct (f (world st)). cbn. split; [lia|done].
Qed.

Lemma accounted_emit e :
  (∀ name id short_id amount, e ≠ EvCounterInc name id short_id amount) →
  accounted (emit e : M W unit).
Proof.
  intros He st k. cbn. split; [|done].
  destruct e; try (unfold increments; cbn; lia). by destruct (He name id short_id amount).
Qed.

Lemma accounted_counter_inc k0 amount : accounted (counter_inc k0 amount : M W unit).
Proof.
  intros st k. destruct k0 as [[name id] short_id].
  unfold counter_inc, increments. cbn [final events metrics fst snd omap list_omap].
  case_decide as Hk.
  - subst k. rewrite lookup_insert_eq. cbn. split; [lia|by eexists].
  - rewrite lookup_insert_ne by done. cbn. split; [lia|done].
Qed.

Lemma accounted_get_services : accounted (get_services settings).
Proof.
  unfold get_services. apply accounted_bind; [apply accounted_call|].
  intros services. apply accounted_bind; [by apply accounted_emit|].
  intros _. apply accounted_ret.
Qed.

Lemma accounted_priming iter services : accounted (priming settings iter services).
Proof.
  revert services. induction iter as [|service iter IH]; intros services.
  { apply accounted_ret. }
  cbn [priming]. apply accounted_bind; [apply accounted_call|].
  intros [|].
  - apply accounted_bind; [apply accounted_counter_inc|]. intros _. apply IH.
  - apply accounted_bind; [by apply accounted_emit|]. intros _.
    apply accounted_bind; [apply accounted_get_services|]. intros l. apply IH.
Qed.

Lemma accounted_convergence_wait fuel service services :
  accounted (convergence_wait settings fuel service services).
Proof.
  revert service. induction fuel as [|fuel IH]; intros service.
  { apply accounted_out_of_fuel. }
  cbn [convergence_wait]. apply accounted_bind; [apply accounted_call|].
  intros reloaded. apply accounted_bind; [by apply accounted_emit|]. intros _.
  destruct reloaded as [service'|].
  - destruct (updating service'); [|apply accounted_ret].
    apply accounted_bind; [by apply accounted_emit|]. intros _. apply IH.
  - apply accounted_bind; [apply accounted_get_services|]. intros l.
    apply accounted_ret.
Qed.

Lemma accounted_reconcile_service fuel service services :
  accounted (reconcile_service settings fuel service services).
Proof.
  unfold reconcile_service.
  destruct (__get_image_parts (svc_image service)) as [image image_sha].
  apply accounted_bind.
  { unfold __get_updated_image. apply accounted_bind; [apply accounted_call|].
    intros registry_data. apply accounted_bind; [by apply accounted_emit|].
    intros _. destruct registry_data; [|apply accounted_ret].
    case_decide; apply accounted_ret. }
  intros update_image. apply accounted_bind.
  { destruct update_image as [| |new_ref]; try apply accounted_ret.
    destruct (truthy _); [|apply accounted_ret].
    unfold __update_image. apply accounted_bind; [apply accounted_call|].
    intros ok. apply accounted_bind; [by apply accounted_emit|].
    intros _. apply accounted_ret. }
  intros [|]; [|apply accounted_ret].
  apply accounted_bind; [apply accounted_convergence_wait|].
  intros [last services']. apply accounted_bind; [apply accounted_counter_inc|].
  intros _. apply accounted_bind; [by apply accounted_emit|].
  intros _. apply accounted_ret.
Qed.

Lemma accounted_reconcile fuel iter services :
  accounted (reconcile settings fuel iter services).
Proof.
  revert services. induction iter as [|service iter IH]; intros services.
  { apply accounted_ret. }
  cbn [reconcile]. apply accounted_bind; [apply accounted_reconcile_service|].
  intros l. apply IH.
Qed.

Lemma accounted_run_cycle fuel : accounted (_run settings fuel).
Proof.
  unfold _run. apply accounted_bind; [apply accounted_get_services|].
  intros l. apply accounted_bind; [apply accounted_priming|].
  intros l'. apply accounted_bind; [apply accounted_reconcile|].
  intros _. apply accounted_ret.
Qed.

Lemma accounted_run_loop cycles fuel sleep ty :
  accounted (run_loop settings cycles fuel sleep ty).
Proof.
  induction cycles as [|cycles IH]; [apply accounted_out_of_fuel|].
  cbn [run_loop]. apply accounted_bind; [by apply accounted_emit|]. intros _.
  apply accounted_bind; [apply accounted_run_cycle|]. intros _.
  apply accounted_bind; [by apply accounted_emit|]. intros _.
  apply accounted_bind; [by apply accounted_emit|]. intros _. apply IH.
Qed.

End Counters.

(** ** The order of the calls in a cycle *)

Section CallOrder.
Context {W : Type} `{Platform W}.
Variable settings : Settings.
Local Open Scope list_scope.
Local Open Scope nat_scope.

Implicit Types (st : State W) (service last : Service)
  (services iter : list Service) (evs : list Event).

Lemma omap_none {B} (f : Event → option B) (p : Event → bool) evs :
  (∀ e, p e = true → f e = None) → forallb p evs = true → omap f evs = [].
Proof.
  intros Hf. induction evs as [|e evs IH]; [done|]. cbn [forallb].
  intros [He Hevs]%andb_true_iff. cbn. by rewrite (Hf e He), IH.
Qed.

Lemma update_calls_app evs evs' :
  update_calls (evs ++ evs') = update_calls evs ++ update_calls evs'.
Proof. apply omap_app. Qed.

Lemma queries_app evs evs' : queries (evs ++ evs') = queries evs ++ queries evs'.
Proof. apply omap_app. Qed.

Lemma update_calls_wait evs : forallb is_wait_event evs = true → update_calls evs = [].
Proof. apply omap_none. by intros []. Qed.

Lemma queries_wait evs : forallb is_wait_event evs = true → queries evs = [].
Proof. apply omap_none. by intros []. Qed.

Lemma update_calls_priming evs :
  forallb is_priming_event evs = true → update_calls evs = [].
Proof. apply omap_none. by intros []. Qed.

Lemma queries_priming evs : forallb is_priming_event evs = true → queries evs = [].
Proof. apply omap_none. by intros []. Qed.

(** The loop body queries the registry once, for the repository of the
    service, and calls update at most once, for the service. *)
Lemma reconcile_service_calls fuel service services st :
  queries (events (reconcile_service settings fuel service services st))
  = [svc_repository service]
  ∧ (update_calls (events (reconcile_service settings fuel service services st)) = []
     ∨ update_calls (events (reconcile_service settings fuel service services st))
       = [service]).
Proof.
  rewrite reconcile_service_run. cbn zeta.
  destruct (get_registry_data _ (world st)).1 as [digest|]; [|by split; [|left]].
  case_decide; [by split; [|left]|].
  destruct (service_update service _ true _).1; [|by split; [|right]].
  match goal with |- context [convergence_wait settings fuel service services ?s] =>
    pose proof (convergence_wait_quiet settings fuel service services s) as [_ Hev] end.
  rewrite events_after, queries_app, update_calls_app.
  destruct (convergence_wait settings fuel service services _)
    as [[last services'] st3 evs|st3 evs]; cbn [events] in Hev |- *;
    rewrite ?queries_app, ?update_calls_app, (queries_wait evs Hev),
      (update_calls_wait evs Hev); by split; [|right].
Qed.

(** A pass calls update for services of its list only, each at most once
    and in the order of the list; it queries the registry for the
    repositories of the list in order, for all of them when it returns. *)
Lemma reconcile_calls fuel iter services st :
  update_calls (events (reconcile settings fuel iter services st)) `sublist_of` iter
  ∧ queries (events (reconcile settings fuel iter services st))
    `prefix_of` (svc_repository <$> iter)
  ∧ (∀ services' st' evs,
       reconcile settings fuel iter services st = Done services' st' evs →
       queries evs = svc_repository <$> iter).
Proof.
  revert services st. induction iter as [|service iter IH]; intros services st.
  { cbn. split; [done|]. split; [done|]. by intros ? ? ? [= _ _ <-]. }
  rewrite reconcile_cons.
  destruct (reconcile_service_calls fuel service services st) as [Hq Hu].
  destruct (reconcile_service settings fuel service services st)
    as [services' st' evs|st' evs]; cbn [events] in Hq, Hu.
  - destruct (IH services' st') as (Hsub & Hpre & Hdone).
    rewrite events_after, update_calls_app, queries_app, Hq. split; [|split].
    + destruct Hu as [->| ->]; [by apply sublist_cons|by apply sublist_skip].
    + rewrite fmap_cons. by apply (prefix_cons (svc_repository service)).
    + intros l st'' evs'.
      destruct (reconcile settings fuel iter services' st') as [l0 st0 evs0|];
        cbn [after]; [|done].
      intros [= _ _ <-]. rewrite queries_app, Hq, fmap_cons.
      cbn [app]. f_equal. by eapply Hdone.
  - cbn [events]. split; [|split; [|done]].
    + destruct Hu as [->| ->]; [apply sublist_nil_l|].
      apply sublist_skip, sublist_nil_l.
    + rewrite Hq, fmap_cons. apply (prefix_cons _ []), prefix_nil.
Qed.

(** The list the priming loop hands to the reconciliation pass: the one
    it was given, or the eligible services of a later listing. *)
Lemma priming_result iter services st :
  ∃ services' st' evs,
    priming settings iter services st = Done services' st' evs
    ∧ forallb is_priming_event evs = true
    ∧ (services' = services
       ∨ ∃ w, services' = foldl blacklist_pass
                            (services_list (filters settings) w).1
                            (blacklist settings)).
Proof.
  revert services st. induction iter as [|service iter IH]; intros services st.
  { eexists _, _, _. split; [reflexivity|]. split; [done|by left]. }
  rewrite priming_cons. cbn zeta.
  destruct (service_present service (world st)).1.
  - edestruct (IH services) as (l & st' & evs & -> & Hev & Hl).
    cbn [after]. eexists _, _, _. split; [reflexivity|]. split; [done|done].
  - edestruct IH as (l & st' & evs & -> & Hev & Hl).
    cbn [after]. eexists _, _, _. split; [reflexivity|]. split; [done|].
    right. destruct Hl as [->|Hl]; [by eexists|done].
Qed.

(** A cycle is a listing, priming events and one reconciliation pass over
    the eligible services of one listing of the platform. *)
Lemma run_decompose fuel st :
  ∃ w st2 evs2,
    let l := foldl blacklist_pass (services_list (filters settings) w).1
               (blacklist settings) in
    forallb is_priming_event evs2 = true
    ∧ _run settings fuel st
      = after (EvServicesList (filters settings) :: evs2)
          (forget (reconcile settings fuel l l st2)).
Proof.
  rewrite run_unfold, get_services_run.
  match goal with |- context [priming settings ?l ?l ?s] =>
    destruct (priming_result l l s) as (l' & st2 & evs2 & -> & Hev & Hl) end.
  assert (Hw : ∃ w, l' = foldl blacklist_pass (services_list (filters settings) w).1
                           (blacklist settings)).
  { destruct Hl as [->|?]; [by eexists|done]. }
  destruct Hw as [w ->]. exists w, st2, evs2. cbn zeta. split; [done|].
  destruct (reconcile settings fuel _ _ st2) as [l1 st3 evs3|st3 evs3];
    cbn [after forget]; by rewrite ?app_nil_r.
Qed.

(** In a cycle that returns, the registry is queried once for each
    eligible service of one listing of the platform, in the order of that
    listing, and for nothing else; when no service is reported missing
    during priming this is the listing the cycle began with. *)
Theorem cycle_queries_eligible fuel st st' evs :
  _run settings fuel st = Done tt st' evs →
  (∃ w, queries evs
        = svc_repository <$> foldl blacklist_pass
                               (services_list (filters settings) w).1
                               (blacklist settings))
  ∧ (all_present →
     queries evs
     = svc_repository <$> foldl blacklist_pass
                            (services_list (filters settings) (world st)).1
                            (blacklist settings)).
Proof.
  intros Hrun. split.
  - destruct (run_decompose fuel st) as (w & st2 & evs2 & Hev & Heq).
    exists w. rewrite Hrun in Heq. cbn zeta in Heq.
    set (l := foldl blacklist_pass (services_list (filters settings) w).1
                (blacklist settings)) in *.
    destruct (reconcile_calls fuel l l st2) as (_ & _ & Hdone).
    destruct (reconcile settings fuel l l st2) as [l1 st3 evs3|]; [|done].
    cbn [after forget] in Heq. injection Heq as _ ->.
    change (EvServicesList (filters settings) :: evs2 ++ evs3)
      with ([EvServicesList (filters settings)] ++ evs2 ++ evs3).
    rewrite !queries_app, (queries_priming evs2 Hev). cbn [app].
    by eapply Hdone.
  - intros Hpresent. revert Hrun. rewrite run_unfold, get_services_run.
    match goal with |- context [priming settings ?l ?l ?s] =>
      destruct (priming_initialises settings l l s Hpresent)
        as (st2 & evs2 & Hprime & _);
      pose proof (priming_run settings l l s) as (l' & st2' & evs2' & Hprime' & Hev)
    end.
    rewrite Hprime in Hprime'. injection Hprime' as <- <- <-.
    rewrite Hprime. cbn [after].
    set (l := foldl blacklist_pass (services_list (filters settings) (world st)).1
                (blacklist settings)) in *.
    destruct (reconcile_calls fuel l l st2) as (_ & _ & Hdone).
    destruct (reconcile settings fuel l l st2) as [l1 st3 evs3|]; [|done].
    cbn [after]. intros [= _ <-].
    change (EvServicesList (filters settings) :: evs2 ++ evs3 ++ [])
      with ([EvServicesList (filters settings)] ++ evs2 ++ evs3 ++ []).
    rewrite app_nil_r, !queries_app, (queries_priming evs2 Hev). cbn [app].
    by eapply Hdone.
Qed.

(** On a platform whose listings hold pairwise distinct ids and names no
    service is the target of two update calls in one cycle. *)
Theorem one_update_per_cycle fuel st :
  distinct_listings →
  NoDup (svc_id <$> update_calls (events (_run settings fuel st))).
Proof.
  intros Hdistinct.
  destruct (run_decompose fuel st) as (w & st2 & evs2 & Hev & ->).
  cbn zeta. rewrite events_after.
  change (EvServicesList (filters settings) :: evs2)
    with ([EvServicesList (filters settings)] ++ evs2).
  rewrite !update_calls_app, (update_calls_priming evs2 Hev). cbn [app].
  destruct (Hdistinct (filters settings) w) as [Hnames Hids].
  destruct (reconcile_calls fuel
              (foldl blacklist_pass (services_list (filters settings) w).1
                 (blacklist settings))
              (foldl blacklist_pass (services_list (filters settings) w).1
                 (blacklist settings)) st2) as (Hsub & _ & _).
  assert (Hevents : ∀ A (r : Res W A), events (forget r) = events r)
    by by intros A [].
  rewrite Hevents.
  eapply sublist_NoDup; [|apply fmap_sublist, Hsub].
  rewrite blacklist_filter by done. by apply filter_distinct.
Qed.

End CallOrder.

(** ** The wait, refused updates, and services already at the new digest *)

Section Passes.
Context {W : Type} `{Platform W}.
Variable settings : Settings.
Local Open Scope list_scope.
Local Open Scope nat_scope.

Implicit Types (st : State W) (service last : Service)
  (services iter : list Service) (evs : list Event).

(** The wait reloads, pauses one second and reloads again: when it
    returns it has made one reload more than pauses, fewer pauses than
    its bound; when the bound is reached it has made that many reloads and
    pauses; and every pause is one second long. *)
Theorem wait_polls_every_second fuel service services st :
  (∀ secs, EvPause secs ∈ events (convergence_wait settings fuel service services st) →
           secs = 1%Z)
  ∧ match convergence_wait settings fuel service services st with
    | Done _ _ evs =>
        count is_reload evs = S (count is_pause evs) ∧ count is_pause evs < fuel
    | Waiting _ evs =>
        count is_reload evs = fuel ∧ count is_pause evs = fuel
    end.
Proof.
  split.
  { intros secs Hin.
    pose proof (convergence_wait_cycle_events settings fuel service services st)
      as Hall.
    rewrite Forall_forall in Hall. specialize (Hall _ Hin).
    by inversion Hall. }
  revert service st. induction fuel as [|fuel IH]; intros service st; [done|].
  rewrite convergence_wait_S. cbn zeta.
  destruct (service_reload service (world st)).1 as [service'|].
  2:{ unfold count. cbn. lia. }
  destruct (updating service').
  2:{ unfold count. cbn. lia. }
  match goal with |- context [convergence_wait settings fuel service' services ?s] =>
    specialize (IH service' s);
    destruct (convergence_wait settings fuel service' services s)
      as [[last l] st' evs|st' evs] end;
    cbn [after]; rewrite !count_app; unfold count at 1 3; cbn; lia.
Qed.

Lemma reconcile_refused fuel iter services st :
  updates_refused →
  ∃ st' evs,
    reconcile settings fuel iter services st = Done services st' evs
    ∧ forallb is_attempt evs = true.
Proof.
  intros Hrefused. revert st. induction iter as [|service iter IH]; intros st.
  { by eexists _, _. }
  rewrite reconcile_cons, reconcile_service_run. cbn zeta.
  destruct (get_registry_data _ (world st)).1 as [digest|].
  2:{ edestruct IH as (st' & evs & -> & Hev). cbn [after]. by eexists _, _. }
  case_decide.
  { edestruct IH as (st' & evs & -> & Hev). cbn [after]. by eexists _, _. }
  rewrite Hrefused.
  edestruct IH as (st' & evs & -> & Hev). cbn [after]. by eexists _, _.
Qed.

Lemma increments_none (p : Event → bool) k evs :
  (∀ e, p e = true → ∀ name id short_id amount,
        e = EvCounterInc name id short_id amount → amount = 0) →
  forallb p evs = true → increments k evs = 0.
Proof.
  intros Hp. induction evs as [|e evs IH]; [done|]. cbn [forallb].
  intros [He Hevs]%andb_true_iff.
  change (e :: evs) with ([e] ++ evs). rewrite increments_app, (IH Hevs).
  destruct e; try done. unfold increments. cbn. case_decide; [|done].
  cbn. rewrite (Hp _ He _ _ _ _ eq_refl). done.
Qed.

(** When the platform refuses every update call, a cycle returns
    whatever the bound of the wait is, without a reload or a notification
    and with every counter at the value it had. *)
Theorem refused_updates_cycle fuel st :
  updates_refused →
  ∃ st' evs,
    _run settings fuel st = Done tt st' evs
    ∧ (∀ k, default 0 (metrics st' !! k) = default 0 (metrics st !! k))
    ∧ (∀ e, e ∈ evs → is_reload e = false ∧ ∀ name, is_notify name e = false).
Proof.
  intros Hrefused.
  destruct (run_decompose settings fuel st) as (w & st2 & evs2 & Hev2 & Hrun).
  cbn zeta in Hrun.
  set (l := foldl blacklist_pass (services_list (filters settings) w).1
              (blacklist settings)) in *.
  destruct (reconcile_refused fuel l l st2 Hrefused) as (st' & evs & Hrec & Hev).
  rewrite Hrec in Hrun. cbn [forget after] in Hrun.
  eexists _, _. split; [exact Hrun|].
  assert (Hquiet : ∀ e, e ∈ EvServicesList (filters settings) :: evs2 ++ evs →
                        is_priming_event e = true ∨ is_attempt e = true).
  { intros e [->|[He|He]%elem_of_app]%elem_of_cons; [by left| |].
    - left. rewrite forallb_forall in Hev2. by apply Hev2, list_elem_of_In.
    - right. rewrite forallb_forall in Hev. by apply Hev, list_elem_of_In. }
  split.
  - intros k. destruct (accounted_run_cycle settings fuel st k) as [Hval _].
    rewrite Hrun in Hval. cbn [final events] in Hval. rewrite Hval.
    rewrite (increments_none (λ e, is_priming_event e || is_attempt e)); [lia| |].
    + intros e He name id short_id amount ->. by destruct amount.
    + apply forallb_forall. intros e He%list_elem_of_In.
      apply orb_true_iff. by apply Hquiet.
  - intros e He. destruct (Hquiet e He) as [Hp|Ha]; by destruct e.
Qed.

(** A service that carries the reference the resolver builds for a
    registry digest is left alone while the registry returns that digest:
    the loop body ends after the query. *)
Theorem updated_service_left_alone fuel service service' services st digest :
  svc_image service' = (svc_repository service ++ "@" ++ digest)%string →
  (get_registry_data (svc_repository service) (world st)).1 = Some digest →
  reconcile_service settings fuel service' services st
  = Done services
      {| world := (get_registry_data (svc_repository service) (world st)).2;
         metrics := metrics st |}
      [EvRegistryData (svc_repository service) (Some digest)].
Proof.
  intros Himage Hreg. rewrite reconcile_service_run. cbn zeta.
  rewrite Himage.
  rewrite (get_image_parts_compose (svc_repository service) digest)
    by apply get_image_parts_repository.
  cbn [fst snd]. rewrite Hreg. by rewrite decide_True.
Qed.

(** When no service is reported missing during priming, every eligible
    service of the listing has a counter series once the cycle is over,
    also when the cycle is still waiting for a rollout. *)
Theorem cycle_primes_eligible fuel st service :
  all_present →
  service ∈ foldl blacklist_pass (services_list (filters settings) (world st)).1
              (blacklist settings) →
  is_Some (metrics (final (_run settings fuel st))
             !! (svc_name service, svc_id service, svc_short_id service)).
Proof.
  intros Hpresent Hin. rewrite run_unfold, get_services_run.
  set (l := foldl blacklist_pass (services_list (filters settings) (world st)).1
              (blacklist settings)) in *.
  match goal with |- context [priming settings l l ?s] =>
    destruct (priming_initialises settings l l s Hpresent)
      as (st2 & evs2 & -> & _ & _ & Hseries) end.
  rewrite !final_after.
  destruct (accounted_reconcile settings fuel l l st2
              (svc_name service, svc_id service, svc_short_id service))
    as [_ Hkeep].
  specialize (Hkeep (Hseries service Hin)).
  by destruct (reconcile settings fuel l l st2).
Qed.

End Passes.

(** ** Priming and the counter values *)

Section Priming.
Context {W : Type} `{Platform W}.
Variable settings : Settings.
Local Open Scope list_scope.
Local Open Scope nat_scope.

Implicit Types (st : State W) (service last : Service)
  (services iter : list Service) (evs : list Event) (k : Labels).



(** The wait leaves a service object with the id it started with. *)
Lemma convergence_wait_keeps_id fuel service services st last services' st' evs :
  reload_keeps_id →
  convergence_wait settings fuel service services st = Done (last, services') st' evs →
  svc_id last = svc_id service ∧ svc_short_id last = svc_short_id service.
Proof.
  intros Hid. revert service st last services' st' evs.
  induction fuel as [|fuel IH]; intros service st last services' st' evs; [done|].
  rewrite convergence_wait_S. cbn zeta.
  destruct (service_reload service (world st)).1 as [service'|] eqn:Hreload.
  2:{ by intros [= <- _ _ _]. }
  destruct (Hid _ _ _ Hreload) as [Hi Hs].
  destruct (updating service').
  - match goal with |- context [convergence_wait settings fuel service' services ?s] =>
      destruct (convergence_wait settings fuel service' services s)
        as [[last' l'] st'' evs'|] eqn:Hw end; [|done].
    cbn [after]. intros [= -> _ _ _].
    destruct (IH _ _ _ _ _ _ Hw) as [-> ->]. done.
  - by intros [= <- _ _ _].
Qed.

Lemma count_accepted_wait k evs :
  forallb is_wait_event evs = true → count (is_accepted k) evs = 0.
Proof. apply count_wait_events. by intros []. Qed.

Lemma increments_wait k evs :
  forallb is_wait_event evs = true → increments k evs = 0.
Proof. apply increments_none. by intros e He name id short_id amount ->. Qed.

Lemma count_accepted_priming k evs :
  forallb is_priming_event evs = true → count (is_accepted k) evs = 0.
Proof. apply count_priming_events. by intros []. Qed.

Lemma increments_priming k evs :
  forallb is_priming_event evs = true → increments k evs = 0.
Proof.
  apply increments_none. intros e He name id short_id amount ->.
  by destruct amount.
Qed.

(** The loop body adds one to the series of the service when the
    platform accepted its update call and the wait is over, and nothing
    otherwise. *)
Lemma reconcile_service_counted fuel service services st k :
  reload_keeps_id →
  increments k (events (reconcile_service settings fuel service services st))
  ≤ count (is_accepted k) (events (reconcile_service settings fuel service services st))
  ∧ (∀ l st' evs,
       reconcile_service settings fuel service services st = Done l st' evs →
       increments k evs = count (is_accepted k) evs).
Proof.
  intros Hid. rewrite reconcile_service_run. cbn zeta.
  destruct (get_registry_data _ (world st)).1 as [digest|].
  2:{ split; [done|]. by intros l st' evs [= _ _ <-]. }
  case_decide.
  { split; [done|]. by intros l st' evs [= _ _ <-]. }
  destruct (service_update service _ true _).1.
  2:{ split; [done|]. by intros l st' evs [= _ _ <-]. }
  match goal with |- context [convergence_wait settings fuel service services ?s] =>
    pose proof (convergence_wait_quiet settings fuel service services s) as [_ Hev];
    pose proof (convergence_wait_keeps_id fuel service services s) as Hkeep;
    destruct (convergence_wait settings fuel service services s)
      as [[last l'] st3 evs3|st3 evs3] end; cbn [events] in Hev.
  - destruct (Hkeep last l' st3 evs3 Hid eq_refl) as [Hi Hs].
    assert (Hboth :
      increments k ([EvRegistryData (__get_image_parts (svc_image service)).1
                       (Some digest);
                     EvServiceUpdate service
                       ((__get_image_parts (svc_image service)).1 ++ "@" ++ digest)%string
                       true true]
                    ++ evs3
                    ++ [EvCounterInc (svc_name service) (svc_id last)
                          (svc_short_id last) 1;
                        EvNotify (notification settings (svc_name service)
                                    (svc_image service) last)])
      = count (is_accepted k)
          ([EvRegistryData (__get_image_parts (svc_image service)).1 (Some digest);
            EvServiceUpdate service
              ((__get_image_parts (svc_image service)).1 ++ "@" ++ digest)%string
              true true]
           ++ evs3
           ++ [EvCounterInc (svc_name service) (svc_id last) (svc_short_id last) 1;
               EvNotify (notification settings (svc_name service)
                           (svc_image service) last)])).
    { rewrite !increments_app, !count_app, (increments_wait k evs3),
        (count_accepted_wait k evs3) by done.
      unfold increments, count. cbn [omap list_omap List.filter is_accepted].
      rewrite Hi, Hs. fold (svc_labels service).
      case_decide; [by rewrite bool_decide_eq_true_2|by rewrite bool_decide_eq_false_2]. }
    cbn [after events]. split; [by rewrite Hboth|].
    intros l st' evs [= _ _ <-]. exact Hboth.
  - cbn [after events]. split; [|done].
    rewrite !increments_app, (increments_wait k evs3) by done.
    unfold increments. cbn. lia.
Qed.

Lemma reconcile_counted fuel iter services st k :
  reload_keeps_id →
  increments k (events (reconcile settings fuel iter services st))
  ≤ count (is_accepted k) (events (reconcile settings fuel iter services st))
  ∧ (∀ l st' evs,
       reconcile settings fuel iter services st = Done l st' evs →
       increments k evs = count (is_accepted k) evs).
Proof.
  intros Hid. revert services st.
  induction iter as [|service iter IH]; intros services st.
  { split; [done|]. by intros l st' evs [= _ _ <-]. }
  rewrite reconcile_cons.
  destruct (reconcile_service_counted fuel service services st k Hid) as [Hle Heq].
  destruct (reconcile_service settings fuel service services st)
    as [services' st1 evs1|st1 evs1]; [|by split].
  cbn [events] in Hle. specialize (Heq _ _ _ eq_refl).
  destruct (IH services' st1) as [Hle' Heq'].
  rewrite events_after, increments_app, count_app. split; [lia|].
  destruct (reconcile settings fuel iter services' st1) as [l2 st2 evs2|st2 evs2];
    [|done].
  cbn [after]. intros l st' evs [= _ _ <-].
  rewrite increments_app, count_app, (Heq' _ _ _ eq_refl). lia.
Qed.

(** The counter of a series counts the update calls the platform accepted
    for its service: on a platform whose [reload] keeps the id, a cycle
    that returns has added to each series the number of its accepted
    update calls; a cycle that is still waiting has added that number or
    one less; and no counter decreases. *)
Theorem counters_count_updates fuel st k :
  reload_keeps_id →
  default 0 (metrics st !! k)
  ≤ default 0 (metrics (final (_run settings fuel st)) !! k)
  ∧ default 0 (metrics (final (_run settings fuel st)) !! k)
    ≤ default 0 (metrics st !! k)
      + count (is_accepted k) (events (_run settings fuel st))
  ∧ (∀ st' evs,
       _run settings fuel st = Done tt st' evs →
       default 0 (metrics st' !! k)
       = default 0 (metrics st !! k) + count (is_accepted k) evs).
Proof.
  intros Hid.
  destruct (accounted_run_cycle settings fuel st k) as [Hacc _].
  destruct (run_decompose settings fuel st) as (w & st2 & evs2 & Hrun).
  cbn zeta in Hrun. destruct Hrun as [Hev Hrun].
  set (l := foldl blacklist_pass (services_list (filters settings) w).1
              (blacklist settings)) in *.
  destruct (reconcile_counted fuel l l st2 k Hid) as [Hle Heq].
  assert (Hevents :
    increments k (events (_run settings fuel st))
    ≤ count (is_accepted k) (events (_run settings fuel st))
    ∧ (∀ st' evs, _run settings fuel st = Done tt st' evs →
         increments k evs = count (is_accepted k) evs)).
  { rewrite Hrun.
    change (EvServicesList (filters settings) :: evs2)
      with ([EvServicesList (filters settings)] ++ evs2).
    assert (Hlist : increments k [EvServicesList (filters settings)] = 0
                    ∧ count (is_accepted k) [EvServicesList (filters settings)] = 0)
      by done.
    destruct Hlist as [Hlist Hlist'].
    destruct (reconcile settings fuel l l st2) as [l1 st3 evs3|st3 evs3];
      cbn [forget after events] in *;
      rewrite !increments_app, !count_app, (increments_priming k evs2),
        (count_accepted_priming k evs2), Hlist, Hlist' by done.
    - split; [lia|].
      intros st' evs [= _ <-].
      change (EvServicesList (filters settings) :: evs2 ++ evs3)
        with ([EvServicesList (filters settings)] ++ evs2 ++ evs3).
      rewrite !increments_app, !count_app, (increments_priming k evs2),
        (count_accepted_priming k evs2), Hlist, Hlist' by done.
      by rewrite (Heq _ _ _ eq_refl).
    - split; [lia|done]. }
  destruct Hevents as [Hle' Heq'].
  split; [lia|]. split; [lia|].
  intros st' evs Hdone. rewrite Hdone in Hacc. cbn [final events] in Hacc.
  rewrite Hacc, (Heq' _ _ Hdone). done.
Qed.

End Priming.

(** ** The scheduler *)

Section Scheduler.
Context {W : Type} `{Platform W}.
Variable settings : Settings.
Local Open Scope list_scope.
Local Open Scope nat_scope.

Implicit Types (st : State W) (evs : list Event).

Lemma phases_app evs evs' : phases (evs ++ evs') = phases evs ++ phases evs'.
Proof. apply omap_app. Qed.

Lemma phases_cycle evs : Forall (cycle_event settings) evs → phases evs = [].
Proof.
  induction 1 as [|e evs He _ IH]; [done|].
  change (e :: evs) with ([e] ++ evs). rewrite phases_app, IH.
  by destruct He.
Qed.

Lemma run_loop_phases cycles fuel sleep ty st :
  ∃ n, n ≤ cycles
       ∧ phases (events (run_loop settings cycles fuel sleep ty st))
         = mjoin (replicate n ["running"; "sleeping"])
           ++ (if decide (n = cycles) then [] else ["running"])
       ∧ ((∀ st0, ∃ st1 evs1, _run settings fuel st0 = Done tt st1 evs1) →
          n = cycles).
Proof.
  revert st. induction cycles as [|cycles IH]; intros st.
  { exists 0. split; [done|]. split; [done|done]. }
  cbn [run_loop]. rewrite bind_run. unfold emit at 1. cbn [after].
  rewrite bind_run.
  pose proof (phases_cycle _ (run_cycle_events settings fuel st)) as Hcycle.
  destruct (_run settings fuel st) as [[] st1 evs1|st1 evs1] eqn:Hrun;
    cbn [events] in Hcycle.
  - rewrite bind_run. unfold emit at 1. cbn [after].
    rewrite bind_run. unfold emit at 1. cbn [after].
    destruct (IH st1) as (n & Hn & Hphases & Hall).
    exists (S n). split; [lia|]. split.
    + rewrite !events_after, !phases_app, Hcycle, Hphases.
      cbn [phases omap list_omap app replicate mjoin list_join].
      destruct (decide (n = cycles)), (decide (S n = S cycles)); (done || lia).
    + intros Hdone. by rewrite (Hall Hdone).
  - exists 0. split; [lia|]. split.
    + rewrite events_after. cbn [events]. rewrite phases_app, Hcycle.
      by cbn.
    + intros Hdone. destruct (Hdone st) as (st' & evs' & Hst).
      by rewrite Hrun in Hst.
Qed.

(** The scheduler starts the metrics endpoint once, before anything
    else, and then moves the state gauge through "running", "sleeping",
    "running", ...: after [n] complete cycles the gauge reads "sleeping",
    and it reads "running" while a cycle is waiting for a rollout; when
    every cycle returns, all the cycles of the bound are complete. *)
Theorem scheduler_phases cycles fuel sleep ty st :
  ∃ evs n,
    events (run settings cycles fuel sleep ty st)
    = EvHttpServer (prometheus_port settings) :: evs
    ∧ (∀ port, EvHttpServer port ∉ evs)
    ∧ n ≤ cycles
    ∧ phases evs = mjoin (replicate n ["running"; "sleeping"])
                   ++ (if decide (n = cycles) then [] else ["running"])
    ∧ ((∀ st0, ∃ st1 evs1, _run settings fuel st0 = Done tt st1 evs1) →
       n = cycles).
Proof.
  destruct (run_loop_phases cycles fuel sleep ty st) as (n & Hn & Hphases & Hall).
  exists (events (run_loop settings cycles fuel sleep ty st)), n.
  split; [|split; [|done]].
  - unfold run. rewrite bind_run. unfold emit at 1. cbn [after].
    by rewrite events_after.
  - intros port. clear. revert st.
    induction cycles as [|cycles IH]; intros st; [by intros ?%elem_of_nil|].
    cbn [run_loop]. rewrite bind_run. unfold emit at 1. cbn [after].
    rewrite events_after, bind_run.
    intros [Hin|Hin]%elem_of_app; [by apply list_elem_of_singleton in Hin|].
    pose proof (run_cycle_events settings fuel st) as Hcycle.
    rewrite Forall_forall in Hcycle.
    destruct (_run settings fuel st) as [[] st1 evs1|st1 evs1];
      cbn [events] in Hcycle.
    2:{ cbn [events] in Hin. specialize (Hcycle _ Hin). inversion Hcycle. }
    rewrite events_after in Hin. apply elem_of_app in Hin as [Hin|Hin].
    { specialize (Hcycle _ Hin). inversion Hcycle. }
    rewrite bind_run in Hin. unfold emit at 1 in Hin. cbn [after] in Hin.
    rewrite events_after, bind_run in Hin. unfold emit at 1 in Hin.
    cbn [after] in Hin. rewrite events_after in Hin.
    apply elem_of_app in Hin as [Hin|[Hin|Hin]%elem_of_app].
    + by apply list_elem_of_singleton in Hin.
    + by apply list_elem_of_singleton in Hin.
    + by eapply IH.
Qed.

End Scheduler.

(** ** The eligible services, whatever the listing *)

Section Filter.
Local Open Scope list_scope.
Local Open Scope nat_scope.
Implicit Types (services : list Service) (service : Service) (b : string).

Lemma list_remove_sublist service services :
  list_remove service services `sublist_of` services.
Proof.
  induction services as [|o rest IH]; [done|]. cbn [list_remove].
  destruct (String.eqb (svc_id o) (svc_id service));
    [by apply sublist_cons|by apply sublist_skip].
Qed.

Lemma blacklist_loop_sublist n i b services :
  blacklist_loop n i b services `sublist_of` services.
Proof.
  revert i services. induction n as [|n IH]; intros i services; [done|].
  cbn [blacklist_loop]. destruct (services !! i) as [service|]; [|done].
  destruct (String.eqb (svc_name service) b); [|apply IH].
  etrans; [apply IH|apply list_remove_sublist].
Qed.

Lemma blacklist_fold_sublist bl services :
  foldl blacklist_pass services bl `sublist_of` services.
Proof.
  revert services. induction bl as [|b bl IH]; intros services; [done|].
  cbn [foldl]. etrans; [apply IH|apply blacklist_loop_sublist].
Qed.

(** With pairwise distinct ids the loop for one blacklist entry drops
    services of that name only. *)
Lemma blacklist_loop_keeps n i b services :
  NoDup (svc_id <$> services) →
  filter (λ s, svc_name s ≠ b) (blacklist_loop n i b services)
  = filter (λ s, svc_name s ≠ b) services.
Proof.
  revert i services. induction n as [|n IH]; intros i services Hids; [done|].
  cbn [blacklist_loop]. destruct (services !! i) as [service|] eqn:Hi; [|done].
  destruct (String.eqb_spec (svc_name service) b) as [Hb|Hb]; [|by apply IH].
  rewrite IH.
  2:{ eapply sublist_NoDup; [done|]. apply fmap_sublist, list_remove_sublist. }
  rewrite (list_remove_lookup _ i) by done.
  rewrite <- (take_drop_middle services i service Hi) at 3.
  rewrite !filter_app. f_equal.
  by rewrite filter_cons_False by (intros Hne; by apply Hne).
Qed.

Lemma blacklist_fold_keeps (Q : Service → Prop) `{!∀ s, Decision (Q s)}
    bl services :
  (∀ s b, Q s → b ∈ bl → svc_name s ≠ b) →
  NoDup (svc_id <$> services) →
  filter Q (foldl blacklist_pass services bl) = filter Q services.
Proof.
  revert services. induction bl as [|b bl IH]; intros services HQ Hids; [done|].
  cbn [foldl]. rewrite IH.
  - rewrite <- (list_filter_filter_l Q (λ s, svc_name s ≠ b) (blacklist_pass _ _)).
    2:{ intros s Hs. eapply HQ; [done|apply list_elem_of_here]. }
    unfold blacklist_pass. rewrite blacklist_loop_keeps by done.
    apply list_filter_filter_l. intros s Hs.
    eapply HQ; [done|apply list_elem_of_here].
  - intros s b' Hs Hb'. eapply HQ; [done|by apply list_elem_of_further].
  - eapply sublist_NoDup; [done|]. apply fmap_sublist, blacklist_loop_sublist.
Qed.

End Filter.

Section Listing.
Context {W : Type} `{Platform W}.
Variable settings : Settings.
Local Open Scope list_scope.

(** Whatever the platform lists, [get_services] returns services of the
    listing, in the order of the listing: it adds none and reorders none;
    and without a blacklist it returns the listing. *)
Theorem get_services_sublist (st : State W) :
  ∃ services st' evs,
    get_services settings st = Done services st' evs
    ∧ services `sublist_of` (services_list (filters settings) (world st)).1
    ∧ (blacklist settings = [] →
       services = (services_list (filters settings) (world st)).1).
Proof.
  rewrite get_services_run. eexists _, _, _. split; [reflexivity|].
  split; [apply blacklist_fold_sublist|]. by intros ->.
Qed.

(** When the ids of a listing are pairwise distinct, [get_services]
    keeps every service whose name is in no blacklist entry, also when
    names repeat in the listing. *)
Theorem get_services_keeps_eligible (st : State W) :
  NoDup (svc_id <$> (services_list (filters settings) (world st)).1) →
  ∃ services st' evs,
    get_services settings st = Done services st' evs
    ∧ filter (eligible (blacklist settings)) services
      = filter (eligible (blacklist settings))
          (services_list (filters settings) (world st)).1
    ∧ ∀ service,
        service ∈ (services_list (filters settings) (world st)).1 →
        svc_name service ∉ blacklist settings →
        service ∈ services.
Proof.
  intros Hids. rewrite get_services_run. eexists _, _, _.
  split; [reflexivity|].
  assert (Hkeep : filter (eligible (blacklist settings))
                    (foldl blacklist_pass
                       (services_list (filters settings) (world st)).1
                       (blacklist settings))
                  = filter (eligible (blacklist settings))
                      (services_list (filters settings) (world st)).1).
  { apply blacklist_fold_keeps; [|done].
    intros s b Hs Hb Heq. apply Hs. unfold eligible. by rewrite Heq. }
  split; [done|]. intros service Hin Hname.
  assert (Hf : service ∈ filter (eligible (blacklist settings))
                 (services_list (filters settings) (world st)).1)
    by by apply list_elem_of_filter.
  rewrite <- Hkeep in Hf. by apply list_elem_of_filter in Hf as [_ ?].
Qed.

End Listing.

(** ** Options and settings *)


Section Dicts.
Local Open Scope list_scope.
Implicit Types (d kwargs : list (string * Value)) (k : string) (v : Value).

Lemma dict_get_set k v d : dict_get k (dict_set k v d) = Some v.
Proof.
  induction d as [|[k' v'] d IH]; cbn [dict_set dict_get].
  { by rewrite String.eqb_refl. }
  destruct (String.eqb k' k) eqn:Hk; cbn [dict_get].
  - by rewrite String.eqb_refl.
  - by rewrite Hk.
Qed.

Lemma dict_get_set_ne k k' v d : k' ≠ k → dict_get k (dict_set k' v d) = dict_get k d.
Proof.
  intros Hne. induction d as [|[k0 v0] d IH]; cbn [dict_set dict_get].
  { by destruct (String.eqb_spec k' k). }
  destruct (String.eqb_spec k0 k') as [->|Hk0]; cbn [dict_get].
  - by destruct (String.eqb_spec k' k).
  - by rewrite IH.
Qed.

Lemma dict_get_none k d : k ∉ d.*1 → dict_get k d = None.
Proof.
  induction d as [|[k' v'] d IH]; [done|]. rewrite fmap_cons, not_elem_of_cons.
  intros [Hne Hd]. cbn [dict_get fst].
  destruct (String.eqb_spec k' k) as [->|_]; [done|by apply IH].
Qed.

Lemma dict_get_elem k v d : dict_get k d = Some v → (k, v) ∈ d.
Proof.
  induction d as [|[k' v'] d IH]; [done|]. cbn [dict_get].
  destruct (String.eqb_spec k' k) as [->|_].
  - intros [= ->]. apply list_elem_of_here.
  - intros Hd. by apply list_elem_of_further, IH.
Qed.

Lemma dict_set_keys k v d :
  (dict_set k v d).*1 = if decide (k ∈ d.*1) then d.*1 else d.*1 ++ [k].
Proof.
  induction d as [|[k' v'] d IH]; [done|]. cbn [dict_set].
  destruct (String.eqb_spec k' k) as [->|Hne].
  - rewrite decide_True by (rewrite fmap_cons; apply list_elem_of_here). done.
  - rewrite !fmap_cons, IH. cbn [fst].
    destruct (decide (k ∈ d.*1)) as [Hin|Hnin].
    + by rewrite decide_True by by apply list_elem_of_further.
    + by rewrite decide_False by (rewrite not_elem_of_cons; split; [congruence|done]).
Qed.

Lemma dict_set_NoDup k v d : NoDup d.*1 → NoDup (dict_set k v d).*1.
Proof.
  intros Hd. rewrite dict_set_keys. case_decide; [done|].
  apply NoDup_app. split; [done|]. split; [|apply NoDup_singleton].
  intros x Hx ->%list_elem_of_singleton. done.
Qed.

(** The settings after the first loop of [__init__], key by key: a key of
    the settings gets the value of the option of that name when there is
    one, and keeps its value otherwise; no key is added. *)
Lemma merge_settings_lookup (settings : gmap string Value) kwargs k :
  NoDup kwargs.*1 →
  merge_settings settings kwargs !! k
  = (λ old, default old (dict_get k kwargs)) <$> settings !! k.
Proof.
  revert settings. induction kwargs as [|[k0 v0] kwargs IH]; intros settings Hkeys.
  { cbn. by destruct (settings !! k). }
  rewrite fmap_cons in Hkeys. apply NoDup_cons in Hkeys as [Hk0 Hkeys].
  unfold merge_settings. cbn [foldl fst snd]. fold (merge_settings
    (if decide (is_Some (settings !! k0)) then <[k0:=v0]> settings else settings)
    kwargs).
  rewrite IH by done. cbn [dict_get].
  destruct (String.eqb_spec k0 k) as [->|Hne].
  - rewrite (dict_get_none k kwargs) by done.
    case_decide as Hk.
    + rewrite lookup_insert_eq. by destruct Hk as [old ->].
    + destruct (settings !! k) eqn:Hs; [|done]. destruct Hk. by eexists.
  - case_decide; [by rewrite lookup_insert_ne|done].
Qed.

(** In the options of a notifier every key is in lower case, holds the
    name of the notifier in lower case, and comes with the value of a
    keyword argument of that key up to case; no key occurs twice. *)
Lemma notifier_options_spec notifier kwargs :
  NoDup (notifier_options notifier kwargs).*1
  ∧ ∀ k v,
      (k, v) ∈ notifier_options notifier kwargs →
      PyText.lower k = k
      ∧ PyText.contains (PyText.lower notifier) k = true
      ∧ ∃ k', (k', v) ∈ kwargs ∧ k = PyText.lower k'.
Proof.
  unfold notifier_options.
  cut (∀ done todo acc,
         kwargs = done ++ todo →
         NoDup acc.*1 →
         (∀ k v, (k, v) ∈ acc →
            PyText.lower k = k ∧ PyText.contains (PyText.lower notifier) k = true
            ∧ ∃ k', (k', v) ∈ done ∧ k = PyText.lower k') →
         let result :=
           foldl (λ notifier_options kv,
                    if PyText.contains (PyText.lower notifier) (PyText.lower kv.1)
                    then dict_set (PyText.lower kv.1) kv.2 notifier_options
                    else notifier_options) acc todo in
         NoDup result.*1
         ∧ ∀ k v, (k, v) ∈ result →
             PyText.lower k = k ∧ PyText.contains (PyText.lower notifier) k = true
             ∧ ∃ k', (k', v) ∈ kwargs ∧ k = PyText.lower k').
  { intros Hcut. apply (Hcut [] kwargs []); [done|constructor|].
    by intros k v ?%elem_of_nil. }
  intros done todo. revert done.
  induction todo as [|[k0 v0] todo IH]; intros done acc Hkw Hacc Hinv.
  { cbn. split; [done|]. intros k v Hin.
    destruct (Hinv k v Hin) as (? & ? & k' & Hk' & ?).
    split; [done|]. split; [done|]. exists k'. split; [|done].
    rewrite Hkw. apply elem_of_app. by left. }
  cbn [foldl fst snd]. apply (IH (done ++ [(k0, v0)])).
  - by rewrite <- app_assoc.
  - case_match; [by apply dict_set_NoDup|done].
  - intros k v Hin.
    assert (Hold : (k, v) ∈ acc →
              PyText.lower k = k ∧ PyText.contains (PyText.lower notifier) k = true
              ∧ ∃ k', (k', v) ∈ done ++ [(k0, v0)] ∧ k = PyText.lower k').
    { intros Hacc'. destruct (Hinv k v Hacc') as (? & ? & k' & Hk' & ?).
      split; [done|]. split; [done|]. exists k'. split; [|done].
      apply elem_of_app. by left. }
    destruct (PyText.contains _ (PyText.lower k0)) eqn:Hc; [|by apply Hold].
    clear IH. revert Hin. induction acc as [|[k1 v1] acc IHacc]; cbn [dict_set].
    + intros [= -> ->]%list_elem_of_singleton.
      split; [apply PyTextFacts.lower_idemp|]. split; [done|].
      exists k0. split; [|done]. apply elem_of_app. right. apply list_elem_of_here.
    + destruct (String.eqb_spec k1 (PyText.lower k0)) as [->|Hne].
      * intros [[= -> ->]|Hin]%elem_of_cons.
        -- split; [apply PyTextFacts.lower_idemp|]. split; [done|].
           exists k0. split; [|done]. apply elem_of_app. right.
           apply list_elem_of_here.
        -- apply Hold. by apply list_elem_of_further.
      * intros [[= -> ->]|Hin]%elem_of_cons.
        -- apply Hold. apply list_elem_of_here.
        -- apply IHacc; [| | |done].
           ++ rewrite fmap_cons in Hacc. by apply NoDup_cons in Hacc as [_ ?].
           ++ intros k' v' Hin'. apply Hinv. by apply list_elem_of_further.
           ++ intros Hin'. apply Hold. by apply list_elem_of_further.
Qed.

End Dicts.

(** ** From the environment to the settings *)

Section Environment.
Local Open Scope list_scope.
Implicit Types (env : gmap string string) (options : list (string * Value)).

Lemma environ_set_nonempty env k v :
  environ_set env k = Some v → env !! k = Some v ∧ ∃ c v', v = String c v'.
Proof.
  unfold environ_set. destruct (env !! k) as [[|c v']|]; [done| |done].
  intros [= <-]. split; [done|]. by eexists _, _.
Qed.

Lemma environ_set_empty env k : env !! k = Some "" → environ_set env k = None.
Proof. unfold environ_set. by intros ->. Qed.

Lemma environ_set_delete env k k' :
  env !! k = Some "" → environ_set (delete k env) k' = environ_set env k'.
Proof.
  intros Hk. unfold environ_set. destruct (decide (k = k')) as [<-|Hne].
  - by rewrite lookup_delete_eq, Hk.
  - by rewrite lookup_delete_ne.
Qed.

(** The options of [__main__], key by key, and what of them goes to the
    telegram notifier. *)
Lemma main_options_get env options :
  main_options env = inr options →
  NoDup options.*1
  ∧ dict_get "notifiers" options
    = Some (VList match environ_set env "TELEGRAM_TOKEN",
                        environ_set env "TELEGRAM_CHAT_ID" with
                  | Some _, Some _ => ["telegram"]
                  | _, _ => []
                  end)
  ∧ dict_get "blacklist" options
    = Some (VList match environ_set env "BLACKLIST_SERVICES" with
                  | Some blacklist => PyText.split " " blacklist
                  | None => []
                  end)
  ∧ dict_get "filters" options
    = match environ_set env "FILTER_SERVICES" with
      | Some filters => (λ kv, VDict [kv]) <$> PyStr.partition "=" filters
      | None => None
      end
  ∧ dict_get "telegram_token" options = VStr <$> environ_set env "TELEGRAM_TOKEN"
  ∧ dict_get "telegram_chat_id" options = VStr <$> environ_set env "TELEGRAM_CHAT_ID"
  ∧ dict_get "notify_include_new_image" options
    = (λ _, VBool true) <$> environ_set env "NOTIFY_INCLUDE_NEW_IMAGE"
  ∧ dict_get "notify_include_old_image" options
    = (λ _, VBool true) <$> environ_set env "NOTIFY_INCLUDE_OLD_IMAGE"
  ∧ dict_get "sleep_time" options = Some (VStr (default "5m" (env !! "SLEEP_TIME")))
  ∧ dict_get "prometheus_port" options
    = Some (VInt match env !! "PORT" with
                 | Some port => default 9308%Z (PyStr.int port)
                 | None => 9308%Z
                 end)
  ∧ notifier_options "telegram" options
    = match environ_set env "TELEGRAM_TOKEN" with
      | Some token => [("telegram_token", VStr token)]
      | None => []
      end ++
      match environ_set env "TELEGRAM_CHAT_ID" with
      | Some chat_id => [("telegram_chat_id", VStr chat_id)]
      | None => []
      end.
Proof.
  unfold main_options, PyStr.split1. intros Hopts.
  destruct (environ_set env "FILTER_SERVICES") as [filters|];
    [destruct (PyStr.partition "=" filters) as [[k v]|]; [|done]|];
    (destruct (environ_set env "BLACKLIST_SERVICES") as [blacklist|]);
    (destruct (environ_set env "TELEGRAM_TOKEN") as [token|] eqn:Htoken;
       [apply environ_set_nonempty in Htoken as (_ & ? & ? & ->)|]);
    (destruct (environ_set env "TELEGRAM_CHAT_ID") as [chat_id|] eqn:Hchat;
       [apply environ_set_nonempty in Hchat as (_ & ? & ? & ->)|]);
    (destruct (environ_set env "NOTIFY_INCLUDE_NEW_IMAGE"));
    (destruct (environ_set env "NOTIFY_INCLUDE_OLD_IMAGE"));
    (destruct (env !! "SLEEP_TIME"));
    (destruct (env !! "PORT") as [port|];
       [destruct (PyStr.int port); [|done]|]);
    vm_compute in Hopts; injection Hopts as <-;
    (split; [apply (bool_decide_unpack _); by vm_compute|]);
    repeat split; vm_compute; reflexivity.
Qed.

End Environment.

Section Startup.
Local Open Scope list_scope.
Implicit Types (env : gmap string string) (options : list (string * Value)).

Lemma main_block_inv env c :
  main_block env = inr c →
  ∃ options,
    main_options env = inr options
    ∧ c_settings c = merge_settings default_settings options
    ∧ init_sleep (default "5m" (env !! "SLEEP_TIME")) = inr (c_sleep c, c_sleep_type c)
    ∧ c_registered c
      = match environ_set env "TELEGRAM_TOKEN", environ_set env "TELEGRAM_CHAT_ID" with
        | Some token, Some chat_id =>
            [("telegram", [("telegram_token", VStr token);
                           ("telegram_chat_id", VStr chat_id)])]
        | _, _ => []
        end
    ∧ settings_record (c_settings c) = Some (environment_settings env).
Proof.
  unfold main_block. destruct (main_options env) as [|options] eqn:Hopts; [done|].
  destruct (main_options_get env options Hopts)
    as (Hkeys & Hnotifiers & Hblacklist & Hfilters & _ & _ & Hnew & Hold & Hsleep
        & Hport & Htelegram).
  unfold __init__. rewrite !merge_settings_lookup by done.
  rewrite Hsleep, Hnotifiers.
  change (default_settings !! "sleep_time") with (Some (VStr "5m")).
  change (default_settings !! "notifiers") with (Some (VList [])).
  cbn [fmap option_fmap option_map default from_option id].
  destruct (init_sleep (default "5m" (env !! "SLEEP_TIME"))) as [e|[sleep ty]];
    [done|].
  assert (Hrecord : settings_record (merge_settings default_settings options)
                    = Some (environment_settings env)).
  { unfold settings_record. rewrite !merge_settings_lookup by done.
    rewrite Hfilters, Hblacklist, Hsleep, Hport, Hnew, Hold.
    change (default_settings !! "filters") with (Some (VDict [])).
    change (default_settings !! "blacklist") with (Some (VDict [])).
    change (default_settings !! "sleep_time") with (Some (VStr "5m")).
    change (default_settings !! "prometheus_port") with (Some (VInt 9308)).
    change (default_settings !! "notify_include_new_image") with (Some (VBool false)).
    change (default_settings !! "notify_include_old_image") with (Some (VBool false)).
    unfold environment_settings.
    destruct (environ_set env "FILTER_SERVICES") as [filters|];
      cbn [mbind option_bind];
      [destruct (PyStr.partition "=" filters) as [[k v]|]|];
      destruct (environ_set env "NOTIFY_INCLUDE_NEW_IMAGE");
      destruct (environ_set env "NOTIFY_INCLUDE_OLD_IMAGE"); reflexivity. }
  destruct (environ_set env "TELEGRAM_TOKEN") as [token|];
    [destruct (environ_set env "TELEGRAM_CHAT_ID") as [chat_id|]|];
    cbn [truthy_value iterate fmap list_fmap];
    intros [= <-]; exists options; cbn [c_settings c_sleep c_sleep_type c_registered];
    rewrite ?Htelegram; done.
Qed.

End Startup.

Section StartupProperties.
Local Open Scope list_scope.
Implicit Types (env : gmap string string) (options : list (string * Value)).

Lemma main_options_outcome env :
  match main_options env with
  | inl FilterIndexError =>
      ∃ filters, environ_set env "FILTER_SERVICES" = Some filters
                 ∧ PyStr.contains "=" filters = false
  | inl (PortValueError port) =>
      (∀ filters, environ_set env "FILTER_SERVICES" = Some filters →
                  PyStr.contains "=" filters = true)
      ∧ env !! "PORT" = Some port ∧ PyStr.int port = None
  | inl _ => False
  | inr _ =>
      (∀ filters, environ_set env "FILTER_SERVICES" = Some filters →
                  PyStr.contains "=" filters = true)
      ∧ ∀ port, env !! "PORT" = Some port → is_Some (PyStr.int port)
  end.
Proof.
  unfold main_options, PyStr.split1.
  destruct (environ_set env "FILTER_SERVICES") as [filters|].
  - destruct (PyStr.partition "=" filters) as [[k v]|] eqn:Hp.
    2:{ exists filters. split; [done|]. by apply PyStrFacts.partition_none. }
    assert (Hok : ∀ f, Some filters = Some f → PyStr.contains "=" f = true).
    { intros f [= <-]. destruct (PyStr.contains "=" filters) eqn:Hc; [done|].
      apply PyStrFacts.partition_none in Hc. congruence. }
    cbn zeta. destruct (env !! "PORT") as [port|]; [|by split].
    destruct (PyStr.int port) eqn:Hint; [|by split].
    split; [done|]. intros ? [= <-]. by eexists.
  - cbn zeta. destruct (env !! "PORT") as [port|]; [|by split].
    destruct (PyStr.int port) eqn:Hint; [|by split].
    split; [done|]. intros ? [= <-]. by eexists.
Qed.

Lemma init_main_options env options :
  main_options env = inr options →
  match __init__ default_settings options with
  | inl (SleepValueError e) =>
      init_sleep (default "5m" (env !! "SLEEP_TIME")) = inl e
  | inl _ => False
  | inr c =>
      init_sleep (default "5m" (env !! "SLEEP_TIME")) = inr (c_sleep c, c_sleep_type c)
  end.
Proof.
  intros Hopts.
  destruct (main_options_get env options Hopts)
    as (Hkeys & Hnotifiers & _ & _ & _ & _ & _ & _ & Hsleep & _ & _).
  unfold __init__. rewrite !merge_settings_lookup by done.
  rewrite Hsleep, Hnotifiers.
  change (default_settings !! "sleep_time") with (Some (VStr "5m")).
  change (default_settings !! "notifiers") with (Some (VList [])).
  cbn [fmap option_fmap option_map default from_option id].
  destruct (init_sleep (default "5m" (env !! "SLEEP_TIME"))) as [e|[sleep ty]];
    [done|].
  destruct (environ_set env "TELEGRAM_TOKEN");
    [destruct (environ_set env "TELEGRAM_CHAT_ID")|]; done.
Qed.

(** How the start ends: with the [IndexError] of the filter when
    FILTER_SERVICES is set without [=]; otherwise with the [ValueError] of
    the port when PORT is set and no integer; otherwise with the
    [ValueError] of the sleep interval when SLEEP_TIME (or ["5m"] in its
    absence) is not understood; and otherwise it succeeds, with that
    interval.  It never ends with a type error. *)
Theorem start_outcome env :
  let filter_ok :=
    ∀ filters, environ_set env "FILTER_SERVICES" = Some filters →
               PyStr.contains "=" filters = true in
  let port_ok := ∀ port, env !! "PORT" = Some port → is_Some (PyStr.int port) in
  match main_block env with
  | inl FilterIndexError =>
      ∃ filters, environ_set env "FILTER_SERVICES" = Some filters
                 ∧ PyStr.contains "=" filters = false
  | inl (PortValueError port) =>
      filter_ok ∧ env !! "PORT" = Some port ∧ PyStr.int port = None
  | inl (SleepValueError e) =>
      filter_ok ∧ port_ok
      ∧ init_sleep (default "5m" (env !! "SLEEP_TIME")) = inl e
  | inl (SettingTypeError _) => False
  | inr c =>
      filter_ok ∧ port_ok
      ∧ init_sleep (default "5m" (env !! "SLEEP_TIME")) = inr (c_sleep c, c_sleep_type c)
  end.
Proof.
  cbn zeta. unfold main_block.
  pose proof (main_options_outcome env) as Hopts.
  destruct (main_options env) as [[|port|e|key]|options] eqn:Hmain; try done.
  pose proof (init_main_options env options Hmain) as Hinit.
  destruct Hopts as [Hfilter Hport].
  destruct (__init__ default_settings options) as [[|port|e|key]|c]; done.
Qed.

(** FILTER_SERVICES without [=] stops the start, whatever the other
    variables hold; with an [=] the filter is the pair of what precedes
    the first [=] and what follows it, which may hold more [=]. *)
Theorem filter_services_pair env value :
  environ_set env "FILTER_SERVICES" = Some value →
  (PyStr.contains "=" value = false → main_block env = inl FilterIndexError)
  ∧ (∀ k v c,
       value = (k ++ "=" ++ v)%string → PyStr.contains "=" k = false →
       main_block env = inr c →
       filters <$> settings_record (c_settings c) = Some [(k, v)]).
Proof.
  intros Hset. split.
  - intros Hc. unfold main_block, main_options, PyStr.split1. rewrite Hset.
    by rewrite (proj2 (PyStrFacts.partition_none "=" value) Hc).
  - intros k v c -> Hk Hmain.
    destruct (main_block_inv env c Hmain) as (_ & _ & _ & _ & _ & ->).
    cbn [fmap option_fmap option_map]. unfold environment_settings.
    cbn [filters]. rewrite Hset. cbn [mbind option_bind].
    change ("=" ++ v)%string with (String "=" v).
    by rewrite (PyStrFacts.partition_app "=" k v Hk).
Qed.

(** The blacklist of a started controller is the list of the fields of
    BLACKLIST_SERVICES between single spaces: joined with spaces they give
    the variable back, none of them holds a space, there is one more than
    spaces in the variable; and the blacklist is empty when the variable
    is unset or empty. *)
Theorem blacklist_services_fields env c :
  main_block env = inr c →
  ∃ s,
    settings_record (c_settings c) = Some s
    ∧ (∀ b, environ_set env "BLACKLIST_SERVICES" = Some b →
         PyText.join " " (blacklist s) = b
         ∧ (∀ name, name ∈ blacklist s → PyStr.contains " " name = false)
         ∧ List.length (blacklist s)
           = S (List.length (List.filter (Ascii.eqb " ") (list_ascii_of_string b))))
    ∧ (environ_set env "BLACKLIST_SERVICES" = None → blacklist s = []).
Proof.
  intros Hmain.
  destruct (main_block_inv env c Hmain) as (_ & _ & _ & _ & _ & Hrecord).
  exists (environment_settings env). split; [done|].
  unfold environment_settings. cbn [blacklist]. split.
  - intros b ->. split; [apply PyTextFacts.join_split|].
    split; [apply PyTextFacts.split_fields|apply PyTextFacts.split_length].
  - by intros ->.
Qed.

Lemma main_options_delete env k :
  env !! k = Some "" → k ≠ "SLEEP_TIME" → k ≠ "PORT" →
  main_options (delete k env) = main_options env.
Proof.
  intros Hk Hsleep Hport. unfold main_options.
  rewrite !(environ_set_delete env k) by done.
  by rewrite !lookup_delete_ne by done.
Qed.

(** A variable set to the empty string counts as unset for the filter,
    the blacklist, the telegram credentials and the two notification
    flags; but SLEEP_TIME or PORT set to the empty string stops the
    start. *)
Theorem empty_variable env k :
  env !! k = Some "" →
  (k ∈ ["FILTER_SERVICES"; "BLACKLIST_SERVICES"; "TELEGRAM_TOKEN";
        "TELEGRAM_CHAT_ID"; "NOTIFY_INCLUDE_NEW_IMAGE";
        "NOTIFY_INCLUDE_OLD_IMAGE"] →
   main_block (delete k env) = main_block env)
  ∧ (k = "SLEEP_TIME" ∨ k = "PORT" → ∃ e, main_block env = inl e).
Proof.
  intros Hk. split.
  - intros Hin. unfold main_block. rewrite main_options_delete; [done|done| |];
      intros ->; revert Hin; apply (bool_decide_unpack _); by vm_compute.
  - intros Hcase. destruct (main_block env) as [e|c] eqn:Hmain; [by eexists|].
    destruct (main_block_inv env c Hmain) as (options & Hopts & _ & Hsleep & _).
    destruct Hcase as [-> | ->].
    + rewrite Hk in Hsleep. done.
    + pose proof (main_options_outcome env) as Hout. rewrite Hopts in Hout.
      destruct Hout as [_ Hport]. destruct (Hport "" Hk) as [z Hz]. done.
Qed.

(** The telegram notifier is registered exactly when TELEGRAM_TOKEN and
    TELEGRAM_CHAT_ID are both set and not empty, and then with these two
    options and no other. *)
Theorem telegram_registered env c :
  main_block env = inr c →
  c_registered c
  = match environ_set env "TELEGRAM_TOKEN", environ_set env "TELEGRAM_CHAT_ID" with
    | Some token, Some chat_id =>
        [("telegram", [("telegram_token", VStr token);
                       ("telegram_chat_id", VStr chat_id)])]
    | _, _ => []
    end.
Proof.
  intros Hmain. by destruct (main_block_inv env c Hmain) as (_ & _ & _ & _ & -> & _).
Qed.

(** After a successful start the controller reads the settings the
    environment stands for, with the defaults of [Cioban.settings] for the
    variables that are unset, and [main] on these settings enters [run]
    with the interval [__init__] parsed. *)
Theorem start_settings env c :
  main_block env = inr c →
  settings_record (c_settings c) = Some (environment_settings env)
  ∧ ∀ W (P : Platform W) cycles fuel (st : State W),
      main (environment_settings env) cycles fuel st
      = inr (run (environment_settings env) cycles fuel (c_sleep c)
               (c_sleep_type c) st).
Proof.
  intros Hmain.
  destruct (main_block_inv env c Hmain) as (_ & _ & _ & Hsleep & _ & Hrecord).
  split; [done|]. intros W P cycles fuel st. unfold main.
  change (sleep_time (environment_settings env))
    with (default "5m" (env !! "SLEEP_TIME")).
  by rewrite Hsleep.
Qed.

(** The first loop of [__init__] never adds or removes a key of the
    settings; with keyword arguments of distinct names, a key of the
    settings gets the value of the argument of its name when there is one
    and keeps its value otherwise. *)
Theorem settings_keys_fixed (settings : gmap string Value) kwargs :
  dom (merge_settings settings kwargs) = dom settings
  ∧ (NoDup kwargs.*1 →
     ∀ k, merge_settings settings kwargs !! k
          = (λ old, default old (dict_get k kwargs)) <$> settings !! k).
Proof.
  split; [|intros Hkeys k; by apply merge_settings_lookup].
  revert settings. induction kwargs as [|[k0 v0] kwargs IH]; intros settings; [done|].
  unfold merge_settings. cbn [foldl fst snd].
  fold (merge_settings
          (if decide (is_Some (settings !! k0)) then <[k0:=v0]> settings else settings)
          kwargs).
  rewrite IH. case_decide as Hk; [|done].
  rewrite dom_insert_L. apply elem_of_dom in Hk.
  apply subseteq_union_1_L. by apply singleton_subseteq_l.
Qed.

End StartupProperties.

(** ** Accepted sleep intervals *)

(** An accepted interval holds at most one letter, its last character,
    which is then a unit of the [relation] table in front of which [int]
    reads the number; without a letter the unit is minutes and [int]
    reads the whole string. *)
Theorem accepted_interval_shape s n ty :
  init_sleep s = inr (n, ty) →
  PyStr.any PyStr.isalpha (PyStr.but_last s) = false
  ∧ (PyStr.any PyStr.isalpha s = false → ty = minutes ∧ PyStr.int s = Some n)
  ∧ (PyStr.any PyStr.isalpha s = true →
     ∃ c, PyStr.last_char s = Some c ∧ relation c = Some ty
          ∧ PyStr.int (PyStr.but_last s) = Some n).
Proof.
  unfold init_sleep. destruct (PyStr.any PyStr.isalpha s) eqn:Halpha.
  - destruct (PyStr.int (PyStr.but_last s)) as [z|] eqn:Hint; [|done].
    destruct (PyStr.last_char s) as [c|]; [|done]. cbn [mbind option_bind].
    destruct (relation c) as [ty'|] eqn:Hrel; [|done]. intros [= <- <-].
    split; [|split; [done|]].
    + apply int_chars_no_letter. by eapply PyStrFacts.int_chars.
    + intros _. by exists c.
  - destruct (PyStr.int s) as [z|] eqn:Hint; [|done]. intros [= <- <-].
    split; [by apply any_but_last|]. split; [done|done].
Qed.

(** ** The properties on concrete starts and runs *)

Lemma update_calls_forced_witness :
  ∃ digest,
    "repo/api@sha256:BBB" = (svc_repository api ++ "@" ++ digest)%string
    ∧ svc_pinned api ≠ Some digest.
Proof.
  destruct (update_calls_forced (H := scripted steady) settings 5 start
              api "repo/api@sha256:BBB" true true)
    as (_ & digest & Himage & Hpinned & _).
  - apply list_elem_of_In. vm_compute. do 4 right. left. reflexivity.
  - exists digest. split; [exact Himage|exact Hpinned].
Defined.

Lemma steady_present : all_present (H := scripted steady).
Proof. intros service w. reflexivity. Defined.

Lemma steady_keeps_id : reload_keeps_id (H := scripted steady).
Proof.
  intros service w service'. cbn [service_reload scripted steady script_reload fst].
  destruct (reloads w `mod` 3) as [|[|[|n]]]; by intros [= <-].
Defined.


Lemma counters_count_updates_witness :
  default 0%nat
    (metrics (final (_run (H := scripted steady) settings 5 Cases.counted))
       !! ("api", "id-api", "api"))
  = 4%nat.
Proof.
  destruct (counters_count_updates (H := scripted steady) settings 5 Cases.counted
              ("api", "id-api", "api") steady_keeps_id) as (_ & _ & Hdone).
  etrans.
  - apply (Hdone (final (_run (H := scripted steady) settings 5 Cases.counted))
             (events (_run (H := scripted steady) settings 5 Cases.counted))).
    by vm_compute.
  - by vm_compute.
Defined.

Lemma cycle_queries_eligible_witness :
  queries (events (_run (H := scripted steady) settings 5 start))
  = ["repo/api"; "repo/web"].
Proof.
  destruct (cycle_queries_eligible (H := scripted steady) settings 5 start
              (final (_run (H := scripted steady) settings 5 start))
              (events (_run (H := scripted steady) settings 5 start)))
    as [_ Hqueries]; [by vm_compute|].
  rewrite (Hqueries steady_present). reflexivity.
Defined.

Lemma one_update_per_cycle_witness :
  NoDup (svc_id <$> update_calls (events (_run (H := scripted steady) settings 5 start))).
Proof.
  apply (one_update_per_cycle (H := scripted steady) settings 5 start).
  intros f w. split; apply (bool_decide_unpack _); by vm_compute.
Defined.

Lemma wait_polls_every_second_witness :
  match convergence_wait (H := scripted steady) settings 5 api [api; web] start with
  | Done _ _ evs =>
      count is_reload evs = S (count is_pause evs) ∧ count is_pause evs < 5
  | Waiting _ evs => count is_reload evs = 5 ∧ count is_pause evs = 5
  end.
Proof.
  exact (proj2 (wait_polls_every_second (H := scripted steady) settings 5 api
                  [api; web] start)).
Defined.

Lemma refused_updates_cycle_witness :
  ∃ st' evs,
    _run (H := scripted (failing (Some "sha256:BBB"))) settings 0 start
    = Done tt st' evs
    ∧ ∀ k, default 0%nat (metrics st' !! k) = 0%nat.
Proof.
  destruct (refused_updates_cycle (H := scripted (failing (Some "sha256:BBB")))
              settings 0 start) as (st' & evs & Hrun & Hcounters & _).
  - intros service image w. reflexivity.
  - exists st', evs. split; [exact Hrun|]. intros k. rewrite Hcounters.
    reflexivity.
Defined.

Lemma updated_service_left_alone_witness :
  reconcile_service (H := scripted steady) settings 5 (rolled_out api) [api; web] start
  = Done [api; web] start [EvRegistryData "repo/api" (Some "sha256:BBB")].
Proof.
  apply (updated_service_left_alone (H := scripted steady) settings 5 api
           (rolled_out api) [api; web] start "sha256:BBB"); reflexivity.
Defined.

Lemma cycle_primes_eligible_witness :
  is_Some (metrics (final (_run (H := scripted steady) settings 0 start))
             !! ("web", "id-web", "web")).
Proof.
  apply (cycle_primes_eligible (H := scripted steady) settings 0 start web).
  - exact steady_present.
  - apply list_elem_of_In. vm_compute. right. left. reflexivity.
Defined.

Lemma failing_cycle_returns (st0 : State Calls) :
  ∃ st1 evs1,
    _run (H := scripted (failing None)) settings 5 st0 = Done tt st1 evs1.
Proof.
  destruct (run_decompose (H := scripted (failing None)) settings 5 st0)
    as (w & st2 & evs2 & _ & ->). cbn zeta.
  edestruct (reconcile_refused (H := scripted (failing None)) settings 5)
    as (st' & evs & -> & _); [by intros service image w0|].
  by eexists _, _.
Defined.

Lemma scheduler_phases_witness :
  ∃ evs,
    events (run (H := scripted (failing None)) settings 2 5 5 minutes start)
    = EvHttpServer 9308 :: evs
    ∧ phases evs = ["running"; "sleeping"; "running"; "sleeping"].
Proof.
  destruct (scheduler_phases (H := scripted (failing None)) settings 2 5 5 minutes
              start) as (evs & n & Hevents & _ & _ & Hphases & Hall).
  exists evs. split; [exact Hevents|].
  rewrite (Hall failing_cycle_returns) in Hphases. exact Hphases.
Defined.

Lemma get_services_sublist_witness :
  ∃ services st' evs,
    get_services (H := scripted steady) Cases.no_blacklist start
    = Done services st' evs
    ∧ services = [api; worker; web].
Proof.
  destruct (get_services_sublist (H := scripted steady) Cases.no_blacklist start)
    as (services & st' & evs & Hget & _ & Hall).
  exists services, st', evs. split; [exact Hget|]. rewrite Hall; reflexivity.
Defined.

Lemma get_services_keeps_eligible_witness :
  ∃ services st' evs,
    get_services (H := scripted steady) settings start = Done services st' evs
    ∧ web ∈ services.
Proof.
  destruct (get_services_keeps_eligible (H := scripted steady) settings start)
    as (services & st' & evs & Hget & _ & Hkeep).
  - apply (bool_decide_unpack _). by vm_compute.
  - exists services, st', evs. split; [exact Hget|]. apply Hkeep.
    + apply list_elem_of_In. vm_compute. right. right. left. reflexivity.
    + apply (bool_decide_unpack _). by vm_compute.
Defined.

Lemma start_outcome_witness :
  ∃ filters,
    environ_set Cases.no_equals "FILTER_SERVICES" = Some filters
    ∧ PyStr.contains "=" filters = false.
Proof.
  pose proof (start_outcome Cases.no_equals) as Hout. cbn zeta in Hout.
  assert (Hmain : main_block Cases.no_equals = inl FilterIndexError) by reflexivity.
  rewrite Hmain in Hout. exact Hout.
Defined.

Lemma filter_services_pair_witness :
  main_block Cases.no_equals = inl FilterIndexError
  ∧ (∀ c, main_block Cases.full = inr c →
          filters <$> settings_record (c_settings c) = Some [("label", "a=b")]).
Proof.
  split.
  - destruct (filter_services_pair Cases.no_equals "label") as [Hbad _];
      [reflexivity|]. apply Hbad. reflexivity.
  - intros c Hmain.
    destruct (filter_services_pair Cases.full "label=a=b") as [_ Hpair];
      [reflexivity|].
    apply (Hpair "label" "a=b" c); [reflexivity|reflexivity|exact Hmain].
Defined.

Lemma blacklist_services_fields_witness :
  match main_block Cases.full with
  | inr c => ∃ s, settings_record (c_settings c) = Some s
                  ∧ PyText.join " " (blacklist s) = "x  y"
                  ∧ List.length (blacklist s) = 3%nat
  | inl _ => False
  end.
Proof.
  pose proof (blacklist_services_fields Cases.full) as Hfields.
  destruct (main_block Cases.full) as [e|c] eqn:Hmain;
    [by vm_compute in Hmain|].
  destruct (Hfields c eq_refl) as (s & Hrecord & Hset & _).
  destruct (Hset "x  y") as (Hjoin & _ & Hlength); [reflexivity|].
  exists s. split; [exact Hrecord|]. split; [exact Hjoin|exact Hlength].
Defined.

Lemma empty_variable_witness :
  main_block (delete "TELEGRAM_TOKEN" Cases.empty_token) = main_block Cases.empty_token
  ∧ ∃ e, main_block Cases.empty_sleep = inl e.
Proof.
  split.
  - destruct (empty_variable Cases.empty_token "TELEGRAM_TOKEN") as [Hunset _];
      [reflexivity|].
    apply Hunset. apply (bool_decide_unpack _). by vm_compute.
  - destruct (empty_variable Cases.empty_sleep "SLEEP_TIME") as [_ Hstop];
      [reflexivity|].
    apply Hstop. by left.
Defined.

Lemma telegram_registered_witness :
  match main_block Cases.full with
  | inr c => c_registered c
             = [("telegram", [("telegram_token", VStr "T");
                              ("telegram_chat_id", VStr "C")])]
  | inl _ => False
  end.
Proof.
  pose proof (telegram_registered Cases.full) as Hregistered.
  destruct (main_block Cases.full) as [e|c] eqn:Hmain;
    [by vm_compute in Hmain|].
  rewrite (Hregistered c eq_refl). reflexivity.
Defined.

Lemma start_settings_witness :
  match main_block Cases.full with
  | inr c => blacklist <$> settings_record (c_settings c) = Some ["x"; ""; "y"]
  | inl _ => False
  end.
Proof.
  pose proof (start_settings Cases.full) as Hsettings.
  destruct (main_block Cases.full) as [e|c] eqn:Hmain;
    [by vm_compute in Hmain|].
  destruct (Hsettings c eq_refl) as [-> _]. reflexivity.
Defined.

Lemma settings_keys_fixed_witness :
  merge_settings default_settings Cases.keywords !! "sleep_time" = Some (VStr "30")
  ∧ merge_settings default_settings Cases.keywords !! "colour" = None.
Proof.
  destruct (settings_keys_fixed default_settings Cases.keywords) as [_ Hlookup].
  assert (Hkeys : NoDup Cases.keywords.*1)
    by (apply (bool_decide_unpack _); by vm_compute).
  split; rewrite (Hlookup Hkeys); reflexivity.
Defined.

Lemma notifier_options_spec_witness :
  PyText.contains "telegram" "telegram_token" = true
  ∧ ∃ k', (k', VStr "T") ∈ Cases.keywords ∧ "telegram_token" = PyText.lower k'.
Proof.
  destruct (notifier_options_spec "Telegram" Cases.keywords) as [_ Hoptions].
  destruct (Hoptions "telegram_token" (VStr "T")) as (_ & Hname & Hfrom).
  - apply list_elem_of_In. vm_compute. left. reflexivity.
  - split; [exact Hname|exact Hfrom].
Defined.

Lemma accepted_interval_shape_witness :
  ∃ c, PyStr.last_char "45d" = Some c ∧ relation c = Some days
       ∧ PyStr.int "45" = Some 45%Z.
Proof.
  destruct (accepted_interval_shape "45d" 45 days) as (_ & _ & Hunit);
    [reflexivity|].
  apply Hunit. reflexivity.
Defined.
